(** * ordered-datastore-backup-tool: the resumable download engine

    A shallow embedding of [src/download.ts] (position recovery, page
    fetcher, backoff, write queues, teardown, main loop) and of the
    revision of the same file that merges the two write queues into one
    [writeTaskQueue] and adds the [running] flag; and of [getConfig] of
    [src/config.ts], which reads, checks and saves the configuration that
    [run] is started with.

    Conventions.
    - JavaScript values are the inductive [value]; numbers are the
      integer-valued ones (an ordered data store holds integers), written
      as [Z]; their decimal rendering is the one of template literals for
      the integers a double holds exactly, those of magnitude up to 2^53
      (beyond, JavaScript prints the digits of the nearest double).
    - Strings are [string]; the lines and tokens handled here are ASCII,
      where JavaScript's UTF-16 indices and the byte indices coincide.
    - A thrown exception or a rejected promise is the [Thrown] result.
    - The network, the file system, the signals and the event loop are the
      environment: they appear as the events of a labelled step function,
      and for [getConfig] as a record of what each file-system call
      answers. *)

From Stdlib Require Import ZArith List String Ascii Bool Lia DecimalString.
Import ListNotations.
Set Warnings "-register-all".
Local Open Scope string_scope.
Local Open Scope Z_scope.

(** ** JavaScript values and the primitive operations the program uses *)

Module JS.

Inductive value : Type :=
| Undefined
| Null
| Bool (b : bool)
| Num (n : Z)
| Str (s : string)
| Arr (elems : list value)
| Obj (props : list (string * value))
| Method (name : string).   (* a built-in function read off a prototype *)

(** [if (v)], [!v], [a && b]: ToBoolean. *)
Definition truthy (v : value) : bool :=
  match v with
  | Undefined | Null => false
  | Bool b => b
  | Num n => negb (n =? 0)
  | Str s => negb (s =? "")%string
  | Arr _ | Obj _ | Method _ => true
  end.

(** [typeof v]. *)
Definition typeof (v : value) : string :=
  match v with
  | Undefined => "undefined"
  | Null => "object"
  | Bool _ => "boolean"
  | Num _ => "number"
  | Str _ => "string"
  | Arr _ | Obj _ => "object"
  | Method _ => "function"
  end.

(** Results of code that may throw. *)
Inductive result (E A : Type) : Type :=
| Returned (a : A)
| Thrown (e : E).
Arguments Returned {E A} a.
Arguments Thrown {E A} e.

Fixpoint lookup (k : string) (props : list (string * value)) : option value :=
  match props with
  | [] => None
  | (k', v) :: rest => if (k =? k')%string then Some v else lookup k rest
  end.

(** [v[k]] for the keys the program reads ("entries", "nextPageToken",
    "id", "value", "Id", "Name", "Scope"): an own property of an object;
    on an array the method [entries] of [Array.prototype] for "entries";
    [undefined] on any other non-nullish value (none of these keys is an
    index or "length", and no other prototype holds one of them); and a
    TypeError ([None]) on [null] and [undefined]. *)
Definition get (v : value) (k : string) : option value :=
  match v with
  | Undefined | Null => None
  | Obj props => Some (match lookup k props with Some x => x | None => Undefined end)
  | Arr _ => Some (if (k =? "entries")%string then Method "entries" else Undefined)
  | _ => Some Undefined
  end.

Fixpoint chars (s : string) : list value :=
  match s with
  | EmptyString => []
  | String c rest => Str (String c EmptyString) :: chars rest
  end.

(** [Object.values(v)] for a non-nullish [v]: the property values of an
    object in enumeration order, the elements of an array, the characters
    of a string, nothing for a number, a boolean or a built-in function. *)
Definition Object_values (v : value) : list value :=
  match v with
  | Obj props => map snd props
  | Arr elems => elems
  | Str s => chars s
  | _ => []
  end.

(** [`${n}`] for an integer of magnitude up to 2^53: its decimal digits. *)
Definition number_to_string (n : Z) : string :=
  NilZero.string_of_int (Z.to_int n).

(** ToString, as applied by a template literal [`${v}`]. *)
Fixpoint to_string (v : value) : string :=
  match v with
  | Undefined => "undefined"
  | Null => "null"
  | Bool true => "true"
  | Bool false => "false"
  | Num n => number_to_string n
  | Str s => s
  | Arr elems =>
      let item x := match x with Undefined | Null => "" | _ => to_string x end in
      String.concat "," (map item elems)
  | Obj _ => "[object Object]"
  | Method name => "function " ++ name ++ "() { [native code] }"
  end.

(** [s.indexOf(pat)]: the first index, or -1. *)
Definition indexOf (pat s : string) : Z :=
  match String.index 0 pat s with
  | Some i => Z.of_nat i
  | None => -1
  end.

(** [s.substring(a, b)]: both ends clamped to [0, length], swapped when
    [a > b]. *)
Definition substring (a b : Z) (s : string) : string :=
  let len := Z.of_nat (String.length s) in
  let clamp x := Z.min (Z.max x 0) len in
  let lo := Z.min (clamp a) (clamp b) in
  let hi := Z.max (clamp a) (clamp b) in
  String.substring (Z.to_nat lo) (Z.to_nat (hi - lo)) s.

End JS.

Import JS.

(** ** src/download.ts *)

Module Download.

Definition STARTING_BACKOFF : Z := 5.
Definition INCREMENT_BACKOFF : Z := 5.

(** [interface Position].  The token is declared [string | null]; the loop
    stores whatever [json["nextPageToken"]] holds, so it is a [value]. *)
Record Position : Type := mkPosition {
  nextPageToken : value;
  page : Z
}.

(** *** getLastPosition *)

(** One round of the [for await (const line of file.readLines())] loop on
    the mutable [result] and the counter [i]. *)
Definition read_line (acc : Position * Z) (line : string) : Position * Z :=
  let '(result, i) := acc in
  if (String.length line =? 0)%nat then (result, i)
  else
    let firstSpace := indexOf " " line in
    let tok := substring 0 firstSpace line in
    let tok' := if (tok =? "null")%string then Null else Str tok in
    (mkPosition tok' i, i + 1).

(** [log] is [None] when [log.txt] does not exist, else its lines. *)
Definition getLastPosition (log : option (list string)) : Position :=
  let result := mkPosition Null 1 in
  match log with
  | None => result
  | Some lines => fst (fold_left read_line lines (result, 2))
  end.

(** *** downloadPage *)

(** [new URL(BASE_URL)] and its [searchParams], for a [BASE_URL] without a
    query part (as [run] builds it from a name and a scope that hold no
    question mark). *)
Record URL : Type := mkURL {
  base : string;
  searchParams : list (string * string)
}.

Definition append (u : URL) (k v : string) : URL :=
  mkURL (base u) (searchParams u ++ [(k, v)]).

Definition request_url (position : Position) (BASE_URL : string) : URL :=
  let url := mkURL BASE_URL [] in
  let url := append url "max_page_size" "100" in
  let url := append url "order_by" "desc" in
  if truthy (nextPageToken position)
  then append url "page_token" (to_string (nextPageToken position))
  else url.

(** What the network answers: [fetch] rejects, or resolves to a response
    whose [text()] resolves ([Some]) or rejects ([None]). *)
Record Response : Type := mkResponse {
  status : Z;
  statusText : string;
  text : option string
}.

Inductive FetchOutcome : Type :=
| FetchRejected (reason : string)
| FetchResolved (response : Response).

(** The [Error]s of [downloadPage], by the message they carry, and the
    TypeError of reading a property of [null]. *)
Inductive Error : Type :=
| FailedToFetch (reason : string)
| CouldNotGetText (status : Z)
| UnexpectedError (status : Z)
| Ratelimit (status : Z)
| CouldNotParse (status : Z)
| InvalidDataStructure (status : Z)
| TypeError.

Section Fetcher.

(** [JSON.parse]: [None] when it throws a SyntaxError. *)
Variable JSON_parse : string -> option value.

Definition downloadPage (position : Position) (BASE_URL : string)
    (net : FetchOutcome) : result Error value :=
  match net with
  | FetchRejected reason => Thrown (FailedToFetch reason)
  | FetchResolved response =>
      match text response with
      | None => Thrown (CouldNotGetText (status response))
      | Some body =>
          if negb (status response =? 429)
             && (status response <? 200)
             && (status response >=? 300)
          then Thrown (UnexpectedError (status response))
          else if status response =? 429
          then Thrown (Ratelimit (status response))
          else
            match JSON_parse body with
            | None => Thrown (CouldNotParse (status response))
            | Some json =>
                match get json "entries" with
                | None => Thrown TypeError
                | Some entries =>
                    if negb (truthy entries)
                    then Thrown (InvalidDataStructure (status response))
                    else Returned json
                end
            end
      end
  end.

End Fetcher.

(** *** The write streams and the [write] helper *)

Definition LF : string := String (ascii_of_nat 10) EmptyString.

Inductive StreamPhase : Type := Open | Ending | Closed.

(** A [WriteStream] opened with flag "a": the chunks this run has appended
    to the file so far. *)
Record WriteStream : Type := mkStream {
  chunks : list string;
  phase : StreamPhase
}.

(** [stream.write(chunk, cb)] appends while [end()] has not been called;
    after it Node raises ERR_STREAM_WRITE_AFTER_END and nothing is
    appended ([None]). *)
Definition stream_write (s : WriteStream) (chunk : string) : option WriteStream :=
  match phase s with
  | Open => Some (mkStream (chunks s ++ [chunk]) Open)
  | _ => None
  end.

Definition stream_end (s : WriteStream) : WriteStream :=
  match phase s with
  | Open => mkStream (chunks s) Ending
  | _ => s
  end.

Definition stream_finish (s : WriteStream) : WriteStream :=
  mkStream (chunks s) Closed.

Definition closed (s : WriteStream) : bool :=
  match phase s with Closed => true | _ => false end.

(** *** The body of the taskQueue worker's [for] loop *)

(** [const id = entry["id"]; const value = entry["value"];
     if (id && value) await write(dataStream, `${id},${value}\n`)]:
    the row to write, if any; reading a property of a [null] entry throws. *)
Definition entry_row (entry : value) : result Error (option string) :=
  match get entry "id", get entry "value" with
  | Some id, Some v =>
      Returned (if truthy id && truthy v
                then Some (to_string id ++ "," ++ to_string v ++ LF)
                else None)
  | _, _ => Thrown TypeError
  end.

(** The log line pushed for a page. *)
Definition logMessage (nextToken : value) (position : Position) : string :=
  to_string nextToken ++ " <- Next page token | Got page "
  ++ number_to_string (page position)
  ++ " (" ++ to_string (nextPageToken position) ++ ")".

(** The messages of [console.log]. *)
Definition backing_off (backoff : Z) : string :=
  "Backing off for " ++ number_to_string backoff ++ "s".

Definition got_page (page : Z) : string :=
  "Got page " ++ number_to_string page.

Definition resuming (page : Z) : string :=
  "Resuming previous download at page " ++ number_to_string page.

(** *** run: the two queues, teardown and the main loop as one machine

    JavaScript runs one callback at a time.  [run], the two queue workers
    and every call of [teardown] are coroutines that give up control at
    their [await]s; an event of the environment resumes one of them, which
    then runs up to its next [await].  An [await write(...)] whose
    [stream.write] returned true resumes in a microtask, before any
    callback of the event loop (network, timers, signals, stream events);
    one whose [stream.write] returned false waits for the stream's "drain".
    The queue library hands a pushed item to a worker in a microtask too,
    so the logQueue worker can write its line between two rows of the
    taskQueue worker. *)

(** Where the taskQueue worker stands. *)
Inductive TaskWorker : Type :=
| TaskIdle
| TaskRunning (rest : list value)      (* in the [for] loop, holding control *)
| TaskAwaitDrain (rest : list value).  (* in [await write], until "drain" *)

(** Where the logQueue worker stands. *)
Inductive LogWorker : Type :=
| LogIdle
| LogAwaitDrain.

(** Where [run] stands. *)
Inductive PC : Type :=
| AwaitFetch      (* [await downloadPage(...)] *)
| AwaitSleep      (* [await sleep(backoff)] *)
| AwaitTeardown (i : nat)  (* [await teardown()] after the loop, the [i]-th call *)
| RunDone.

(** Where one call of [teardown] stands. *)
Inductive Teardown : Type :=
| TdAwaitTaskDrain  (* [await taskQueue.drain()] *)
| TdAwaitLogDrain   (* [await logQueue.drain()] *)
| TdAwaitDataEnd    (* [dataStream.end(cb)] called, [cb] pending *)
| TdAwaitLogEnd     (* [logStream.end(cb)] called, [cb] pending *)
| TdDone.

(** What the outside sees of [run]. *)
Inductive Out : Type :=
| FetchStarted (url : URL)
| Slept (seconds : Z)
| SignalReceived
| Pushed (json : value) (message : string)
| Console (message : string).

Record State : Type := mkState {
  position : Position;
  backoff : Z;
  pc : PC;
  taskQueue : list value;
  taskWorker : TaskWorker;
  logQueue : list string;
  logWorker : LogWorker;
  dataStream : WriteStream;
  logStream : WriteStream;
  teardowns : list Teardown;
  out : list Out
}.

Definition set_loop (st : State) (p : Position) (b : Z) (c : PC) : State :=
  mkState p b c (taskQueue st) (taskWorker st) (logQueue st) (logWorker st)
          (dataStream st) (logStream st) (teardowns st) (out st).

Definition set_task (st : State) (q : list value) (w : TaskWorker) : State :=
  mkState (position st) (backoff st) (pc st) q w (logQueue st) (logWorker st)
          (dataStream st) (logStream st) (teardowns st) (out st).

Definition set_log (st : State) (q : list string) (w : LogWorker) : State :=
  mkState (position st) (backoff st) (pc st) (taskQueue st) (taskWorker st) q w
          (dataStream st) (logStream st) (teardowns st) (out st).

Definition set_dataStream (st : State) (s : WriteStream) : State :=
  mkState (position st) (backoff st) (pc st) (taskQueue st) (taskWorker st)
          (logQueue st) (logWorker st) s (logStream st) (teardowns st) (out st).

Definition set_logStream (st : State) (s : WriteStream) : State :=
  mkState (position st) (backoff st) (pc st) (taskQueue st) (taskWorker st)
          (logQueue st) (logWorker st) (dataStream st) s (teardowns st) (out st).

Definition set_teardowns (st : State) (tds : list Teardown) : State :=
  mkState (position st) (backoff st) (pc st) (taskQueue st) (taskWorker st)
          (logQueue st) (logWorker st) (dataStream st) (logStream st) tds (out st).

Definition emit (st : State) (o : Out) : State :=
  mkState (position st) (backoff st) (pc st) (taskQueue st) (taskWorker st)
          (logQueue st) (logWorker st) (dataStream st) (logStream st)
          (teardowns st) (out st ++ [o]).

(** [taskQueue.idle()], [logQueue.idle()]: nothing queued, nothing running. *)
Definition task_idle (st : State) : bool :=
  match taskQueue st, taskWorker st with
  | [], TaskIdle => true
  | _, _ => false
  end.

Definition log_idle (st : State) : bool :=
  match logQueue st, logWorker st with
  | [], LogIdle => true
  | _, _ => false
  end.

(** The taskQueue worker is between two rows, in a chain of microtasks: the
    callbacks of the event loop wait until it gives up control. *)
Definition busy (st : State) : bool :=
  match taskWorker st with
  | TaskRunning _ => true
  | _ => false
  end.

(** [teardown] from ["Finished writing"] on: the promise that ends the
    streams. *)
Definition teardown_close (st : State) : State * Teardown :=
  let st := emit st (Console "Finished writing") in
  if closed (dataStream st) && closed (logStream st)
  then (emit st (Console "Closed write streams"), TdDone)
  else (set_dataStream st (stream_end (dataStream st)), TdAwaitDataEnd).

(** [teardown] from [if (!logQueue.idle())] on. *)
Definition teardown_logs (st : State) : State * Teardown :=
  if negb (log_idle st) then (st, TdAwaitLogDrain) else teardown_close st.

(** A call of [teardown], up to its first [await]. *)
Definition teardown (st : State) : State * Teardown :=
  if negb (task_idle st) then (st, TdAwaitTaskDrain) else teardown_logs st.

Definition call_teardown (st : State) : State :=
  let '(st, td) := teardown st in
  set_teardowns st (teardowns st ++ [td]).

Fixpoint replace {A : Type} (i : nat) (x : A) (l : list A) : list A :=
  match l, i with
  | [], _ => []
  | _ :: rest, O => x :: rest
  | y :: rest, S i => y :: replace i x rest
  end.

(** Resuming the [i]-th call of [teardown] with the rest of its body. *)
Definition resume_teardown (st : State) (i : nat)
    (body : State -> State * Teardown) : State :=
  let '(st, td) := body st in
  set_teardowns st (replace i td (teardowns st)).

Inductive Event : Type :=
| FetchDone (net : FetchOutcome)  (* the pending [downloadPage] settles *)
| SleepDone                       (* the timer of [sleep(backoff)] fires *)
| Signal                          (* SIGINT, SIGTERM or SIGQUIT *)
| TaskProcess                     (* taskQueue hands its next task to the worker *)
| TaskStep (drained : bool)       (* the worker takes its next entry;
                                     [drained] is what [stream.write] returns *)
| DataDrain                       (* "drain" of dataStream *)
| LogProcess (drained : bool)     (* logQueue hands its next message to the worker *)
| LogDrain                        (* "drain" of logStream *)
| TaskQueueDrained (i : nat)      (* [taskQueue.drain()] of teardown [i] resolves *)
| LogQueueDrained (i : nat)       (* [logQueue.drain()] of teardown [i] resolves *)
| DataEnded (i : nat)             (* the callback of [dataStream.end] of teardown [i] *)
| LogEnded (i : nat)              (* the callback of [logStream.end] of teardown [i] *)
| TeardownDone.                   (* the [await teardown()] of [run] resumes *)

Section Run.

Variable JSON_parse : string -> option value.
Variable BASE_URL : string.

(** [run] from the top of [while (true)] to the [await] in it. *)
Definition loop_top (st : State) : State :=
  let st := emit st (FetchStarted (request_url (position st) BASE_URL)) in
  set_loop st (position st) (backoff st) AwaitFetch.

(** [run] from the settling of [downloadPage] to its next [await]. *)
Definition on_fetch_done (st : State) (net : FetchOutcome) : State :=
  let maybeJson :=
    match downloadPage JSON_parse (position st) BASE_URL net with
    | Returned json => json
    | Thrown _ => Undefined      (* [.catch((reason) => console.error(reason))] *)
    end in
  let entries :=
    match get maybeJson "entries" with Some e => e | None => Undefined end in
  if negb (truthy maybeJson) || negb (truthy entries) then
    let st := emit st (Console (backing_off (backoff st))) in
    let st := emit st (Slept (backoff st)) in
    set_loop st (position st) (backoff st) AwaitSleep
  else
    let json := maybeJson in
    let nextToken :=
      match get json "nextPageToken" with Some t => t | None => Undefined end in
    let message := logMessage nextToken (position st) in
    let st := set_task st (taskQueue st ++ [json]) (taskWorker st) in
    let st := set_log st (logQueue st ++ [message]) (logWorker st) in
    let st := emit st (Pushed json message) in
    let st :=
      if (page (position st) =? 1) || (page (position st) mod 10 =? 0)
      then emit st (Console (got_page (page (position st)))) else st in
    if negb (truthy nextToken) then
      let st := emit st (Console "No next page, finished download!") in
      let i := List.length (teardowns st) in
      let st := call_teardown st in
      set_loop st (position st) (backoff st) (AwaitTeardown i)
    else
      let st :=
        set_loop st (mkPosition nextToken (page (position st) + 1))
                 STARTING_BACKOFF (pc st) in
      loop_top st.

(** [run] from the end of [sleep(backoff)] to its next [await]. *)
Definition on_sleep_done (st : State) : State :=
  let st := set_loop st (position st) (backoff st + INCREMENT_BACKOFF) (pc st) in
  loop_top st.

(** The taskQueue worker from its start to the [for] loop. *)
Definition task_start (json : value) : TaskWorker :=
  if negb (typeof json =? "object")%string then TaskIdle
  else
    match get json "entries" with
    | None => TaskIdle                                 (* TypeError, reported *)
    | Some entries =>
        if negb (truthy entries) then TaskIdle
        else TaskRunning (Object_values entries)
    end.

(** One step of the machine; [None] when the event cannot happen in [st]
    (or when a chunk is written after [end()], where the model stops: the
    chunk is lost).  The steps of the two workers are microtasks and do not
    wait for [busy]. *)
Definition step (st : State) (ev : Event) : option State :=
  match ev with
  | TaskStep drained =>
      match taskWorker st with
      | TaskRunning [] => Some (set_task st (taskQueue st) TaskIdle)   (* [callback()] *)
      | TaskRunning (entry :: rest) =>
          match entry_row entry with
          | Thrown _ => Some (set_task st (taskQueue st) TaskIdle)
          | Returned None => Some (set_task st (taskQueue st) (TaskRunning rest))
          | Returned (Some row) =>
              match stream_write (dataStream st) row with
              | None => None
              | Some ds =>
                  let st := set_dataStream st ds in
                  Some (set_task st (taskQueue st)
                          (if drained then TaskRunning rest else TaskAwaitDrain rest))
              end
          end
      | _ => None
      end
  | LogProcess drained =>
      match logWorker st, logQueue st with
      | LogIdle, message :: queue =>
          match stream_write (logStream st) (message ++ LF) with
          | None => None
          | Some ls =>
              let st := set_logStream st ls in
              Some (set_log st queue (if drained then LogIdle else LogAwaitDrain))
          end
      | _, _ => None
      end
  | _ =>
      if busy st then None else
      match ev with
      | FetchDone net =>
          match pc st with
          | AwaitFetch => Some (on_fetch_done st net)
          | _ => None
          end
      | SleepDone =>
          match pc st with
          | AwaitSleep => Some (on_sleep_done st)
          | _ => None
          end
      | Signal => Some (call_teardown (emit st SignalReceived))
      | TaskProcess =>
          match taskWorker st, taskQueue st with
          | TaskIdle, json :: queue => Some (set_task st queue (task_start json))
          | _, _ => None
          end
      | TaskStep _ => None
      | DataDrain =>
          match taskWorker st with
          | TaskAwaitDrain rest => Some (set_task st (taskQueue st) (TaskRunning rest))
          | _ => None
          end
      | LogProcess _ => None
      | LogDrain =>
          match logWorker st with
          | LogAwaitDrain => Some (set_log st (logQueue st) LogIdle)
          | _ => None
          end
      | TaskQueueDrained i =>
          match nth_error (teardowns st) i with
          | Some TdAwaitTaskDrain =>
              if task_idle st then Some (resume_teardown st i teardown_logs) else None
          | _ => None
          end
      | LogQueueDrained i =>
          match nth_error (teardowns st) i with
          | Some TdAwaitLogDrain =>
              if log_idle st then Some (resume_teardown st i teardown_close) else None
          | _ => None
          end
      | DataEnded i =>
          match nth_error (teardowns st) i with
          | Some TdAwaitDataEnd =>
              let st := set_dataStream st (stream_finish (dataStream st)) in
              let st := set_logStream st (stream_end (logStream st)) in
              Some (set_teardowns st (replace i TdAwaitLogEnd (teardowns st)))
          | _ => None
          end
      | LogEnded i =>
          match nth_error (teardowns st) i with
          | Some TdAwaitLogEnd =>
              let st := set_logStream st (stream_finish (logStream st)) in
              let st := emit st (Console "Closed write streams") in
              Some (set_teardowns st (replace i TdDone (teardowns st)))
          | _ => None
          end
      | TeardownDone =>
          match pc st with
          | AwaitTeardown i =>
              match nth_error (teardowns st) i with
              | Some TdDone =>
                  let st := emit st (Console "Done") in
                  Some (set_loop st (position st) (backoff st) RunDone)
              | _ => None
              end
          | _ => None
          end
      end
  end.

(** A run of the machine over a list of events. *)
Fixpoint steps (st : State) (evs : list Event) : option State :=
  match evs with
  | [] => Some st
  | ev :: rest =>
      match step st ev with
      | Some st' => steps st' rest
      | None => None
      end
  end.

(** [run] from its call to the first [await] of the loop. *)
Definition start (log : option (list string)) : State :=
  let position := getLastPosition log in
  let st :=
    mkState position STARTING_BACKOFF AwaitFetch [] TaskIdle [] LogIdle
            (mkStream [] Open) (mkStream [] Open) [] [] in
  let st :=
    if negb (page position =? 1)
    then emit st (Console (resuming (page position))) else st in
  let st := emit st (Console "Set up write streams, starting download...") in
  loop_top st.

End Run.

End Download.

(** ** The revision of download.ts with [writeTaskQueue] and [running]

    The revision of the file that uses [formatSeconds] of util.ts keeps
    [getLastPosition], [downloadPage] and [write]; it merges the two queues
    into one queue of [WriteTask]s,
    tests [typeof(value) === "number"], stops the loop with the flag
    [running], and lets the backoff come back by [INCREMENT_RETURN_BACKOFF]
    per success.  Its backoff is counted in tenths of a second, so that
    0.1 is exact. *)

Module Revision.

Import Download.

Definition STARTING_BACKOFF : Z := 150.
Definition INCREMENT_BACKOFF : Z := 100.
Definition INCREMENT_RETURN_BACKOFF : Z := 1.

(** [formatSeconds] of util.ts on tenths of a second: two decimals. *)
Definition formatSeconds (tenths : Z) : string :=
  number_to_string (tenths / 10) ++ "." ++ number_to_string (tenths mod 10) ++ "0".

(** [interface WriteTask]. *)
Record WriteTask : Type := mkWriteTask {
  json : value;
  logMessage : string
}.

(** [if (id && typeof(value) === "number") await write(dataStream, ...)]. *)
Definition entry_row (entry : value) : result Error (option string) :=
  match get entry "id", get entry "value" with
  | Some id, Some v =>
      Returned (if truthy id && (typeof v =? "number")%string
                then Some (to_string id ++ "," ++ to_string v ++ LF)
                else None)
  | _, _ => Thrown TypeError
  end.

(** Where the writeTaskQueue worker stands. *)
Inductive Worker : Type :=
| Idle
| Running (rest : list value) (message : string)         (* in the [for] loop *)
| AwaitDataDrain (rest : list value) (message : string)  (* "drain" of dataStream *)
| AwaitLogDrain.                                         (* "drain" of logStream *)

Inductive Teardown : Type :=
| TdAwaitDrain     (* [await writeTaskQueue.drain()] *)
| TdAwaitPayload   (* [await sleep(0.1)] in [while (payload > 0)] *)
| TdAwaitDataEnd
| TdAwaitLogEnd
| TdDone.

(** What the worker does, in order. *)
Inductive Journal : Type :=
| Took (task : WriteTask)
| WroteData (chunk : string)
| WroteLog (chunk : string).

Record State : Type := mkState {
  position : Position;
  backoff : Z;
  running : bool;
  pc : PC;
  queue : list WriteTask;
  worker : Worker;
  dataStream : WriteStream;
  logStream : WriteStream;
  teardowns : list Teardown;
  out : list Out;
  journal : list Journal
}.

Definition set_loop (st : State) (p : Position) (b : Z) (c : PC) : State :=
  mkState p b (running st) c (queue st) (worker st) (dataStream st) (logStream st)
          (teardowns st) (out st) (journal st).

Definition set_running (st : State) (r : bool) : State :=
  mkState (position st) (backoff st) r (pc st) (queue st) (worker st)
          (dataStream st) (logStream st) (teardowns st) (out st) (journal st).

Definition set_queue (st : State) (q : list WriteTask) (w : Worker) : State :=
  mkState (position st) (backoff st) (running st) (pc st) q w
          (dataStream st) (logStream st) (teardowns st) (out st) (journal st).

Definition set_dataStream (st : State) (s : WriteStream) : State :=
  mkState (position st) (backoff st) (running st) (pc st) (queue st) (worker st)
          s (logStream st) (teardowns st) (out st) (journal st).

Definition set_logStream (st : State) (s : WriteStream) : State :=
  mkState (position st) (backoff st) (running st) (pc st) (queue st) (worker st)
          (dataStream st) s (teardowns st) (out st) (journal st).

Definition set_teardowns (st : State) (tds : list Teardown) : State :=
  mkState (position st) (backoff st) (running st) (pc st) (queue st) (worker st)
          (dataStream st) (logStream st) tds (out st) (journal st).

Definition emit (st : State) (o : Out) : State :=
  mkState (position st) (backoff st) (running st) (pc st) (queue st) (worker st)
          (dataStream st) (logStream st) (teardowns st) (out st ++ [o]) (journal st).

Definition note (st : State) (j : Journal) : State :=
  mkState (position st) (backoff st) (running st) (pc st) (queue st) (worker st)
          (dataStream st) (logStream st) (teardowns st) (out st) (journal st ++ [j]).

Definition idle (st : State) : bool :=
  match queue st, worker st with
  | [], Idle => true
  | _, _ => false
  end.

Definition busy (st : State) : bool :=
  match worker st with
  | Running _ _ => true
  | _ => false
  end.

Section Run.

Variable JSON_parse : string -> option value.
Variable BASE_URL : string.

(** [writeTaskQueue.payload], as the queue library reports it. *)
Variable payload : list WriteTask -> Worker -> Z.

Definition teardown_close (st : State) : State * Teardown :=
  let st := emit st (Console "Finished writing") in
  if closed (dataStream st) && closed (logStream st)
  then (emit st (Console "Closed write streams"), TdDone)
  else (set_dataStream st (stream_end (dataStream st)), TdAwaitDataEnd).

(** [teardown] at the test of [while (writeTaskQueue.payload > 0)]. *)
Definition teardown_payload (st : State) : State * Teardown :=
  if payload (queue st) (worker st) >? 0 then (st, TdAwaitPayload)
  else teardown_close st.

(** A call of [teardown], up to its first [await]. *)
Definition teardown (st : State) : State * Teardown :=
  let st := set_running st false in
  if negb (idle st) then (st, TdAwaitDrain) else teardown_payload st.

Definition call_teardown (st : State) : State :=
  let '(st, td) := teardown st in
  set_teardowns st (teardowns st ++ [td]).

Definition resume_teardown (st : State) (i : nat)
    (body : State -> State * Teardown) : State :=
  let '(st, td) := body st in
  set_teardowns st (replace i td (teardowns st)).

(** [run] at the test of [while (running)]. *)
Definition loop_top (st : State) : State :=
  if running st then
    let st := emit st (FetchStarted (request_url (position st) BASE_URL)) in
    set_loop st (position st) (backoff st) AwaitFetch
  else
    let i := List.length (teardowns st) in
    let st := call_teardown st in
    set_loop st (position st) (backoff st) (AwaitTeardown i).

Definition on_fetch_done (st : State) (net : FetchOutcome) : State :=
  let maybeJson :=
    match downloadPage JSON_parse (position st) BASE_URL net with
    | Returned json => json
    | Thrown _ => Undefined
    end in
  let entries :=
    match get maybeJson "entries" with Some e => e | None => Undefined end in
  if negb (truthy maybeJson) || negb (truthy entries) then
    let st := emit st (Console ("Backing off for " ++ formatSeconds (backoff st) ++ "s")) in
    let st := emit st (Slept (backoff st)) in
    set_loop st (position st) (backoff st) AwaitSleep
  else
    let json := maybeJson in
    let nextToken :=
      match get json "nextPageToken" with Some t => t | None => Undefined end in
    let message := Download.logMessage nextToken (position st) in
    let st := set_queue st (queue st ++ [mkWriteTask json message]) (worker st) in
    let st := emit st (Pushed json message) in
    let st :=
      if (page (position st) =? 1) || (page (position st) mod 10 =? 0)
      then emit st (Console (got_page (page (position st)))) else st in
    if negb (truthy nextToken) then
      let st := emit st (Console "No next page, finished download!") in
      let i := List.length (teardowns st) in
      let st := call_teardown st in
      set_loop st (position st) (backoff st) (AwaitTeardown i)
    else
      let st :=
        set_loop st (mkPosition nextToken (page (position st) + 1))
                 (Z.max (backoff st - INCREMENT_RETURN_BACKOFF) STARTING_BACKOFF)
                 (pc st) in
      loop_top st.

Definition on_sleep_done (st : State) : State :=
  let st := set_loop st (position st) (backoff st + INCREMENT_BACKOFF) (pc st) in
  loop_top st.

(** The worker from its start to the [for] loop. *)
Definition worker_start (task : WriteTask) : Worker :=
  if negb (typeof (json task) =? "object")%string then Idle
  else
    match get (json task) "entries" with
    | None => Idle
    | Some entries =>
        if negb (truthy entries) then Idle
        else Running (Object_values entries) (logMessage task)
    end.

Inductive Event : Type :=
| FetchDone (net : FetchOutcome)
| SleepDone
| Signal
| Process                      (* the queue hands its next task to the worker *)
| Step (drained : bool)        (* the worker goes on to its next [write] *)
| DataDrain
| LogDrain
| QueueDrained (i : nat)       (* [writeTaskQueue.drain()] of teardown [i] resolves *)
| PayloadPoll (i : nat)        (* the timer of [sleep(0.1)] of teardown [i] fires *)
| DataEnded (i : nat)
| LogEnded (i : nat)
| TeardownDone.

Definition step (st : State) (ev : Event) : option State :=
  match ev with
  | Step drained =>
      match worker st with
      | Running [] message =>
          (* [await write(logStream, task.logMessage + "\n")], [callback()] *)
          match stream_write (logStream st) (message ++ LF) with
          | None => None
          | Some ls =>
              let st := set_logStream st ls in
              let st := note st (WroteLog (message ++ LF)) in
              Some (set_queue st (queue st) (if drained then Idle else AwaitLogDrain))
          end
      | Running (entry :: rest) message =>
          match entry_row entry with
          | Thrown _ => Some (set_queue st (queue st) Idle)
          | Returned None => Some (set_queue st (queue st) (Running rest message))
          | Returned (Some row) =>
              match stream_write (dataStream st) row with
              | None => None
              | Some ds =>
                  let st := set_dataStream st ds in
                  let st := note st (WroteData row) in
                  Some (set_queue st (queue st)
                          (if drained then Running rest message
                           else AwaitDataDrain rest message))
              end
          end
      | _ => None
      end
  | _ =>
      if busy st then None else
      match ev with
      | FetchDone net =>
          match pc st with
          | AwaitFetch => Some (on_fetch_done st net)
          | _ => None
          end
      | SleepDone =>
          match pc st with
          | AwaitSleep => Some (on_sleep_done st)
          | _ => None
          end
      | Signal => Some (call_teardown (emit st SignalReceived))
      | Process =>
          match worker st, queue st with
          | Idle, task :: rest =>
              Some (set_queue (note st (Took task)) rest (worker_start task))
          | _, _ => None
          end
      | Step _ => None
      | DataDrain =>
          match worker st with
          | AwaitDataDrain rest message =>
              Some (set_queue st (queue st) (Running rest message))
          | _ => None
          end
      | LogDrain =>
          match worker st with
          | AwaitLogDrain => Some (set_queue st (queue st) Idle)
          | _ => None
          end
      | QueueDrained i =>
          match nth_error (teardowns st) i with
          | Some TdAwaitDrain =>
              if idle st then Some (resume_teardown st i teardown_payload) else None
          | _ => None
          end
      | PayloadPoll i =>
          match nth_error (teardowns st) i with
          | Some TdAwaitPayload => Some (resume_teardown st i teardown_payload)
          | _ => None
          end
      | DataEnded i =>
          match nth_error (teardowns st) i with
          | Some TdAwaitDataEnd =>
              let st := set_dataStream st (stream_finish (dataStream st)) in
              let st := set_logStream st (stream_end (logStream st)) in
              Some (set_teardowns st (replace i TdAwaitLogEnd (teardowns st)))
          | _ => None
          end
      | LogEnded i =>
          match nth_error (teardowns st) i with
          | Some TdAwaitLogEnd =>
              let st := set_logStream st (stream_finish (logStream st)) in
              let st := emit st (Console "Closed write streams") in
              Some (set_teardowns st (replace i TdDone (teardowns st)))
          | _ => None
          end
      | TeardownDone =>
          match pc st with
          | AwaitTeardown i =>
              match nth_error (teardowns st) i with
              | Some TdDone =>
                  let st := emit st (Console "Done") in
                  Some (set_loop st (position st) (backoff st) RunDone)
              | _ => None
              end
          | _ => None
          end
      end
  end.

Fixpoint steps (st : State) (evs : list Event) : option State :=
  match evs with
  | [] => Some st
  | ev :: rest =>
      match step st ev with
      | Some st' => steps st' rest
      | None => None
      end
  end.

Definition start (log : option (list string)) : State :=
  let position := getLastPosition log in
  let st :=
    mkState position STARTING_BACKOFF true AwaitFetch [] Idle
            (mkStream [] Open) (mkStream [] Open) [] [] [] in
  let st :=
    if negb (page position =? 1)
    then emit st (Console (resuming (page position))) else st in
  let st := emit st (Console "Set up write streams, starting download...") in
  loop_top st.

End Run.

(** The rows of a list of entries, when no entry throws. *)
Fixpoint page_rows (entries : list value) : option (list string) :=
  match entries with
  | [] => Some []
  | entry :: rest =>
      match entry_row entry, page_rows rest with
      | Returned (Some row), Some rows => Some (row :: rows)
      | Returned None, Some rows => Some rows
      | _, _ => None
      end
  end.

(** An entry with an id and a numeric value, and its row. *)
Definition numeric (entry : value) : bool :=
  match get entry "id", get entry "value" with
  | Some id, Some v => truthy id && (typeof v =? "number")%string
  | _, _ => false
  end.

Definition row (entry : value) : string :=
  match get entry "id", get entry "value" with
  | Some id, Some v => to_string id ++ "," ++ to_string v ++ LF
  | _, _ => ""
  end.

(** [writeTaskQueue.payload] as the queue library reports it: the number
    of tasks a worker is handed at once, which is 1 for a queue, whatever
    is queued or with the worker. *)
Definition one_task (q : list WriteTask) (w : Worker) : Z := 1.

(** The entries the worker walks through for a task. *)
Definition entries_of (task : WriteTask) : list value :=
  match get (json task) "entries" with
  | Some entries => Object_values entries
  | None => []
  end.

(** What the worker does for a task it carries through: it takes the
    task, writes every row of its page, then writes its log line. *)
Definition block (task : WriteTask) (rows : list string) : list Journal :=
  (Took task :: map WroteData rows ++ [WroteLog (logMessage task ++ LF)])%list.

(** Every log line of a journal closes the block of its task. *)
Definition log_after_rows (j : list Journal) : Prop :=
  forall pre chunk post,
    j = (pre ++ WroteLog chunk :: post)%list ->
    exists before task rows,
      page_rows (entries_of task) = Some rows
      /\ (pre ++ [WroteLog chunk] = before ++ block task rows)%list.

(** The chunks a journal sends to each stream. *)
Definition data_writes (j : list Journal) : list string :=
  flat_map (fun e => match e with WroteData chunk => [chunk] | _ => [] end) j.

Definition log_writes (j : list Journal) : list string :=
  flat_map (fun e => match e with WroteLog chunk => [chunk] | _ => [] end) j.

(** The journal of a worker in the middle of a task ends with the task and
    the rows of the entries it has gone through. *)
Definition in_flight (st : State) : Prop :=
  match worker st with
  | Running rest message | AwaitDataDrain rest message =>
      exists before task done rows,
        journal st = (before ++ Took task :: map WroteData rows)%list
        /\ message = logMessage task
        /\ entries_of task = (done ++ rest)%list
        /\ page_rows done = Some rows
  | _ => True
  end.

(** The invariant of the write pipeline. *)
Definition journal_ok (st : State) : Prop :=
  log_after_rows (journal st)
  /\ in_flight st
  /\ chunks (dataStream st) = data_writes (journal st)
  /\ chunks (logStream st) = log_writes (journal st).

End Revision.

(** ** Vocabulary of the statements *)

Module Words.

(** A line of the log counts when it is not empty. *)
Definition nonempty (line : string) : bool :=
  negb (String.length line =? 0)%nat.

(** The character [c] occurs in [s]. *)
Fixpoint occurs (c : ascii) (s : string) : bool :=
  match s with
  | EmptyString => false
  | String c' rest => (c =? c')%char || occurs c rest
  end.

Definition space : ascii := " "%char.

(** The token field of a log line, as [getLastPosition] stores it. *)
Definition decode (tok : string) : value :=
  if (tok =? "null")%string then Null else Str tok.

Definition max_page_size : string * string := ("max_page_size", "100").
Definition order_by : string * string := ("order_by", "desc").

(** [json["nextPageToken"]] of a page. *)
Definition next_token (json : value) : value :=
  match get json "nextPageToken" with Some t => t | None => Undefined end.

(** A [JSON.parse] for a server whose every body is the text of [json]. *)
Definition answers (json : value) : string -> option value :=
  fun _ => Some json.

Definition sample_base : string :=
  "https://apis.roblox.com/ordered-data-stores/v1/universes/1/orderedDataStores/wins/scopes/global/entries".

Definition ok_response : Download.FetchOutcome :=
  Download.FetchResolved (Download.mkResponse 200 "OK" (Some "body")).

Definition rate_limited : Download.FetchOutcome :=
  Download.FetchResolved (Download.mkResponse 429 "Too Many Requests" (Some "")).

(** A page of one entry, as the body of a server error might hold it. *)
Definition page_500 : value :=
  Obj [("entries", Obj [("a", Obj [("id", Str "1"); ("value", Num 10)])])].

(** The requests started among the outputs of [run]. *)
Definition is_fetch (o : Download.Out) : bool :=
  match o with
  | Download.FetchStarted _ => true
  | _ => false
  end.

Definition fetch_count (outs : list Download.Out) : nat :=
  List.length (filter is_fetch outs).





(** The pages pushed among the outputs of [run]. *)
Definition is_push (o : Download.Out) : bool :=
  match o with
  | Download.Pushed _ _ => true
  | _ => false
  end.

Definition pushes (outs : list Download.Out) : nat :=
  List.length (filter is_push outs).

(** A step of download.ts is calm when it leaves the variables of the loop
    alone and prints at most console messages. *)
Definition calm (st st' : Download.State) : Prop :=
  Download.position st' = Download.position st
  /\ Download.backoff st' = Download.backoff st
  /\ Download.pc st' = Download.pc st
  /\ exists msgs,
       Download.out st' = (Download.out st ++ map Download.Console msgs)%list.

(** What [teardown] leaves alone: the worker, its journal, what the streams
    hold, and the number of requests started. *)
Definition untouched (st st' : Revision.State) : Prop :=
  (Revision.worker st' = Revision.worker st
   /\ Revision.journal st' = Revision.journal st
   /\ Download.chunks (Revision.dataStream st') = Download.chunks (Revision.dataStream st)
   /\ Download.chunks (Revision.logStream st') = Download.chunks (Revision.logStream st))
  /\ fetch_count (Revision.out st') = fetch_count (Revision.out st).

(** A piece of code is quiet when it leaves the worker, its journal and
    the chunks of the streams alone and, once [running] is false, keeps it
    false and starts no request. *)
Definition quiet (st st' : Revision.State) : Prop :=
  (Revision.worker st' = Revision.worker st
   /\ Revision.journal st' = Revision.journal st
   /\ Download.chunks (Revision.dataStream st') = Download.chunks (Revision.dataStream st)
   /\ Download.chunks (Revision.logStream st') = Download.chunks (Revision.logStream st))
  /\ (Revision.running st = false ->
      Revision.running st' = false
      /\ fetch_count (Revision.out st') = fetch_count (Revision.out st)).

(** The page [{entries: {a: {id: "1", value: 10}, b: {id: "2", value: "x"}}}]. *)
Definition entry_a : value := Obj [("id", Str "1"); ("value", Num 10)].
Definition entry_x : value := Obj [("id", Str "2"); ("value", Str "x")].
Definition mixed_page : value :=
  Obj [("entries", Obj [("a", entry_a); ("b", entry_x)])].

(** A page of two numeric entries that names a next page, "t". *)
Definition entry_b : value := Obj [("id", Str "2"); ("value", Num 20)].
Definition first_page : value :=
  Obj [("entries", Obj [("a", entry_a); ("b", entry_b)]);
       ("nextPageToken", Str "t")].

End Words.

Import Words.

(** ** More vocabulary: what a run has pushed and written *)

Module Trace.

Import Download.

(** The log messages and the pages [run] has pushed, in order. *)
Definition pushed_messages (outs : list Out) : list string :=
  flat_map (fun o => match o with Pushed _ message => [message] | _ => [] end) outs.

Definition pushed_pages (outs : list Out) : list value :=
  flat_map (fun o => match o with Pushed json _ => [json] | _ => [] end) outs.

(** The chunk the logQueue worker writes for a message. *)
Definition log_line (message : string) : string := message ++ LF.

(** *** The rows of a page, read off the page

    [entry["id"]] and [entry["value"]] of an entry that is neither [null]
    nor [undefined]. *)
Definition field (entry : value) (k : string) : value :=
  match get entry k with
  | Some x => x
  | None => Undefined
  end.

Definition nullish (v : value) : bool :=
  match v with
  | Undefined | Null => true
  | _ => false
  end.

(** An entry download.ts wants a row of: its id and its value are truthy. *)
Definition wanted (entry : value) : bool :=
  truthy (field entry "id") && truthy (field entry "value").

(** The row of an entry: id, comma, value, line feed. *)
Definition csv_row (entry : value) : string :=
  to_string (field entry "id") ++ "," ++ to_string (field entry "value") ++ LF.

(** The entries that come before the first [null] or [undefined] one. *)
Fixpoint before_null (entries : list value) : list value :=
  match entries with
  | [] => []
  | entry :: rest => if nullish entry then [] else entry :: before_null rest
  end.

(** [Object.values(json["entries"])] of a page whose entries are truthy. *)
Definition page_entries (json : value) : list value :=
  match get json "entries" with
  | Some entries => if truthy entries then Object_values entries else []
  | None => []
  end.

(** All the rows a list of entries calls for, and the rows among them that
    come before the first [null] or [undefined] entry. *)
Definition all_rows (entries : list value) : list string :=
  map csv_row (filter wanted entries).

Definition reached_rows (entries : list value) : list string :=
  all_rows (before_null entries).

Definition page_rows (json : value) : list string :=
  reached_rows (page_entries json).

(** All the rows a page calls for. *)
Definition every_row (json : value) : list string :=
  all_rows (page_entries json).

(** A page none of whose entries is [null] or [undefined]. *)
Definition sound_page (json : value) : Prop :=
  Forall (fun entry => nullish entry = false) (page_entries json).

(** The entries the taskQueue worker has still to look at. *)
Definition entries_left (w : TaskWorker) : list value :=
  match w with
  | TaskRunning rest | TaskAwaitDrain rest => rest
  | TaskIdle => []
  end.

(** *** The same rows, as the worker comes to them

    What the worker of the machine writes when it walks through [entries]
    with [entry_row], stopping where [entry_row] throws.  These serve the
    invariant of the machine; [PageFacts.task_rows_reached] and
    [PageFacts.page_rows_of_page] tie them to the rows read off the page. *)
Fixpoint task_rows (entries : list value) : list string :=
  match entries with
  | [] => []
  | entry :: rest =>
      match entry_row entry with
      | Returned (Some row) => row :: task_rows rest
      | Returned None => task_rows rest
      | Thrown _ => []
      end
  end.

(** The rows a worker still has to write, and the rows of a queued page:
    those of the worker that starts on it. *)
Definition rows_to_come (w : TaskWorker) : list string :=
  match w with
  | TaskRunning rest | TaskAwaitDrain rest => task_rows rest
  | TaskIdle => []
  end.

Definition page_rows_of (json : value) : list string :=
  rows_to_come (task_start json).

(** Both queues are first in, first out, and lose nothing: what was
    written, then what a worker holds, then what is queued, is what was
    pushed. *)
Definition pipeline_ok (st : State) : Prop :=
  (chunks (logStream st) ++ map log_line (logQueue st)
   = map log_line (pushed_messages (out st)))%list
  /\ (chunks (dataStream st) ++ rows_to_come (taskWorker st)
      ++ flat_map page_rows_of (taskQueue st)
      = flat_map page_rows_of (pushed_pages (out st)))%list.

(** A piece of [teardown] is still when it touches neither the loop nor the
    queues nor what the streams hold, and prints console messages only. *)
Definition still (st st' : State) : Prop :=
  position st' = position st
  /\ pc st' = pc st
  /\ taskQueue st' = taskQueue st
  /\ taskWorker st' = taskWorker st
  /\ logQueue st' = logQueue st
  /\ logWorker st' = logWorker st
  /\ chunks (dataStream st') = chunks (dataStream st)
  /\ chunks (logStream st') = chunks (logStream st)
  /\ exists msgs, out st' = (out st ++ map Console msgs)%list.

(** The loop is still going round. *)
Definition looping (st : State) : bool :=
  match pc st with
  | AwaitFetch | AwaitSleep => true
  | _ => false
  end.

(** *** log.txt as a text

    The line breaks [readLines] knows. *)
Definition NL : ascii := ascii_of_nat 10.
Definition CR : ascii := ascii_of_nat 13.

(** A string without a line break. *)
Definition unbroken (s : string) : Prop :=
  occurs NL s = false /\ occurs CR s = false.

(** [file.readLines()] on the text of a file: a line ends at a line feed,
    at a carriage return, or at a carriage return followed by a line feed;
    what follows the last line break is a line when it is not empty.
    [after_cr] tells that the character before was a carriage return, and
    [line] holds the characters of the line read so far. *)
Fixpoint lines_from (after_cr : bool) (line text : string) : list string :=
  match text with
  | EmptyString => if (line =? "")%string then [] else [line]
  | String c rest =>
      if (NL =? c)%char then
        if after_cr then lines_from false "" rest
        else line :: lines_from false "" rest
      else if (CR =? c)%char then line :: lines_from true "" rest
      else lines_from false (line ++ String c "") rest
  end.

Definition readLines (text : string) : list string :=
  lines_from false "" text.

(** A text that is empty or ends with a line feed: what [run] appends to
    it starts a new line. *)
Definition terminated (text : string) : Prop :=
  text = "" \/ exists before, text = before ++ LF.

(** The text of a file after chunks were appended to it. *)
Fixpoint appended (text : string) (chunks : list string) : string :=
  match chunks with
  | [] => text
  | chunk :: rest => appended (text ++ chunk) rest
  end.

(** log.txt when [run] begins: absent ([None]) or a text; the lines
    [getLastPosition] is given; and the text of log.txt once every message
    pushed so far is written. *)
Definition file_lines (file : option string) : option (list string) :=
  option_map readLines file.

Definition file_text (file : option string) : string :=
  match file with
  | Some text => text
  | None => ""
  end.

Definition log_text (file : option string) (outs : list Out) : string :=
  appended (file_text file) (map log_line (pushed_messages outs)).

(** A next-page token the log can carry: a non-empty string without a
    space or a line break that is not the word "null". *)
Definition plain_token (t : value) : Prop :=
  exists s,
    t = Str s /\ s <> "" /\ occurs space s = false /\ s <> "null" /\ unbroken s.

(** A page as [downloadPage] returns it that ends the download or names a
    next page by a plain token. *)
Definition tidy_pages (JSON_parse : string -> option value) : Prop :=
  forall body json,
    JSON_parse body = Some json ->
    truthy (next_token json) = false \/ plain_token (next_token json).

(** The lines [getLastPosition] was given, followed by the messages
    pushed: [TextFacts.readLines_log_text] shows these to be the lines of
    [log_text] when the old text is [terminated] and no message holds a line
    break. *)
Definition lines_of (log : option (list string)) : list string :=
  match log with
  | Some lines => lines
  | None => []
  end.

Definition log_after (log : option (list string)) (outs : list Out) : list string :=
  (lines_of log ++ pushed_messages outs)%list.

(** While the loop goes round, reading the log again gives the position. *)
Definition cursor_ok (log : option (list string)) (st : State) : Prop :=
  looping st = true ->
  position st = getLastPosition (Some (log_after log (out st))).

(** The page counts the pages pushed; the last page pushed is not counted. *)
Definition page_ok (log : option (list string)) (st : State) : Prop :=
  page (position st) + (if looping st then 0 else 1)
  = page (getLastPosition log) + Z.of_nat (pushes (out st)).

(** While the loop goes round, reading the log again gives the position,
    and no message pushed holds a line break. *)
Definition legible (log : option (list string)) (st : State) : Prop :=
  cursor_ok log st
  /\ (looping st = true -> Forall unbroken (pushed_messages (out st))).

(** A queued page the worker will walk through. *)
Definition walkable (json : value) : Prop :=
  exists entries,
    get json "entries" = Some entries
    /\ truthy entries = true
    /\ task_start json = TaskRunning (Object_values entries).

(** A run without signals: [teardown] is called once, by [run] itself. *)
Definition orderly (st : State) : Prop :=
  match teardowns st with
  | [] =>
      looping st = true
      /\ phase (dataStream st) = Open /\ phase (logStream st) = Open
  | [td] =>
      (pc st = AwaitTeardown 0 \/ pc st = RunDone)
      /\ match td with
         | TdAwaitTaskDrain =>
             phase (dataStream st) = Open /\ phase (logStream st) = Open
         | TdAwaitLogDrain =>
             task_idle st = true
             /\ phase (dataStream st) = Open /\ phase (logStream st) = Open
         | TdAwaitDataEnd =>
             task_idle st = true /\ log_idle st = true
             /\ phase (logStream st) = Open
         | TdAwaitLogEnd | TdDone =>
             task_idle st = true /\ log_idle st = true
         end
  | _ => False
  end.

(** A page whose second entry is [null]. *)
Definition holed_page : value :=
  Obj [("entries", Obj [("a", entry_a); ("hole", Null); ("b", entry_b)])].

(** A run of the sample page from the first request to the return of
    [run]. *)
Definition whole_run : list Download.Event :=
  [FetchDone ok_response; TaskProcess; TaskStep true; TaskStep true; TaskStep true;
   LogProcess true; TaskQueueDrained 0; DataEnded 0; LogEnded 0; TeardownDone].

(** A sleep of the revision that lasts its starting backoff at least. *)
Definition long_enough (o : Out) : Prop :=
  match o with
  | Slept tenths => Revision.STARTING_BACKOFF <= tenths
  | _ => True
  end.

(** The backoff of the revision and its sleeps stay above the start. *)
Definition backoff_bounded (st : Revision.State) : Prop :=
  Revision.STARTING_BACKOFF <= Revision.backoff st
  /\ Forall long_enough (Revision.out st).

End Trace.

Import Trace.

(** ** src/config.ts and [pathExists] of src/util.ts *)

Module Config.

Definition KEY_STORE_PATH : string := "key.txt".
Definition CONFIG_STORE_PATH : string := "config.json".

Record Config : Type := mkConfig {
  OutputDir : string;
  Key : string;
  Id : value;
  Name : string;
  Scope : string
}.

(** [SavedConfig]: a [Config] without its [Key]. *)
Record SavedConfig : Type := mkSaved {
  savedOutputDir : string;
  savedId : value;
  savedName : string;
  savedScope : string
}.

(** The object literal [saveConfig] is called with. *)
Definition saved_object (saved : SavedConfig) : value :=
  Obj [("OutputDir", Str (savedOutputDir saved));
       ("Id", savedId saved);
       ("Name", Str (savedName saved));
       ("Scope", Str (savedScope saved))].

(** What [getConfig] throws: its four [Error]s, a TypeError, the
    SyntaxError of [JSON.parse], or the rejection of a file-system promise. *)
Inductive Error : Type :=
| MustProvideOutputDir
| MustProvideKey
| MustProvideId
| MustProvideName
| TypeError
| SyntaxError
| Rejected (call : string).

(** What [getConfig] does to the world, in order. *)
Inductive Effect : Type :=
| Log (line : string)
| Mkdir (path : string)
| WriteFile (path : string) (data : value).

(** The file system as [getConfig] meets it: whether [accessSync] returns,
    what [readFile] decodes ([None]: it rejects), whether [mkdir] with
    [recursive] and [writeFile] succeed. *)
Record Env : Type := mkEnv {
  accessSync : string -> bool;
  readFile : string -> option string;
  mkdir : string -> bool;
  writeFile : string -> value -> bool
}.

(** Code that logs, writes and may throw. *)
Definition M (A : Type) : Type := list Effect -> list Effect * result Error A.

Definition ret {A : Type} (a : A) : M A :=
  fun done => (done, Returned a).

Definition throw {A : Type} (e : Error) : M A :=
  fun done => (done, Thrown e).

Definition bind {A B : Type} (m : M A) (k : A -> M B) : M B :=
  fun done =>
    match m done with
    | (done', Returned a) => k a done'
    | (done', Thrown e) => (done', Thrown e)
    end.

Notation "x <- m ;; k" := (bind m (fun x => k))
  (at level 61, m at next level, right associativity).
Notation "m ;; k" := (bind m (fun _ => k))
  (at level 61, right associativity).

(** [a || b]. *)
Definition or_else (a b : value) : value :=
  if truthy a then a else b.

(** [v?.[k]]. *)
Definition optional (v : value) (k : string) : value :=
  match get v k with
  | Some x => x
  | None => Undefined
  end.

(** [response[k]] on the object [prompts] resolves to. *)
Definition reply (response : list (string * value)) (k : string) : value :=
  match lookup k response with
  | Some x => x
  | None => Undefined
  end.

Section GetConfig.

(** [JSON.parse] ([None] when it throws), [JSON.stringify(_, null, 4)],
    [path.join] of two strings and [String.prototype.trim]. *)
Variable JSON_parse : string -> option value.
Variable JSON_stringify : value -> string.
Variable path_join : string -> string -> string.
Variable trim : string -> string.

(** [s <= 0] for a string [s]: its numeric value compared with zero,
    false when it is no number. *)
Variable string_le_zero : string -> bool.

Variable env : Env.

(** util.ts, [pathExists]. *)
Definition pathExists (path : string) : bool :=
  if accessSync env path then true else false.

Definition console_log (line : string) : M unit :=
  fun done => ((done ++ [Log line])%list, Returned tt).

Definition read_file (path : string) : M string :=
  fun done =>
    match readFile env path with
    | Some text => (done, Returned text)
    | None => (done, Thrown (Rejected "readFile"))
    end.

Definition make_dir (path : string) : M unit :=
  fun done =>
    if mkdir env path then ((done ++ [Mkdir path])%list, Returned tt)
    else (done, Thrown (Rejected "mkdir")).

Definition write_file (path : string) (data : value) : M unit :=
  fun done =>
    if writeFile env path data then ((done ++ [WriteFile path data])%list, Returned tt)
    else (done, Thrown (Rejected "writeFile")).

Definition parse (text : string) : M value :=
  match JSON_parse text with
  | Some v => ret v
  | None => throw SyntaxError
  end.

(** [v.trim()]: a TypeError unless [v] is a string. *)
Definition trimmed (v : value) : M string :=
  match v with
  | Str s => ret (trim s)
  | _ => throw TypeError
  end.

(** [v <= 0]: the numeric value of [v] compared with zero. *)
Definition le_zero (v : value) : bool :=
  match v with
  | Num n => n <=? 0
  | Bool b => negb b
  | Null => true
  | Undefined => false
  | Str _ | Arr _ | Obj _ | Method _ => string_le_zero (to_string v)
  end.

Definition saveConfig (saved : SavedConfig) : M unit :=
  write_file (path_join (savedOutputDir saved) CONFIG_STORE_PATH)
             (Str (JSON_stringify (saved_object saved))).

(** [onSubmitHandler]: whether [prompts] stops asking after this answer. *)
Definition onSubmitHandler (name : string) (answer : string) : bool :=
  if (name =? "OutputDir")%string then
    if negb (truthy (Str answer)) || (Z.of_nat (String.length answer) =? 0) then true
    else
      let exists_ := pathExists answer in
      let keyExists := exists_ && pathExists (path_join answer KEY_STORE_PATH) in
      let configExists := exists_ && pathExists (path_join answer CONFIG_STORE_PATH) in
      exists_ && keyExists && configExists
  else false.

(** [getConfig] from the answers on.  [path.join] throws a TypeError on an
    output directory that is no string. *)
Definition getConfig (response : list (string * value)) : M Config :=
  let outputDir := reply response "OutputDir" in
  if negb (truthy outputDir) then throw MustProvideOutputDir else
  match outputDir with
  | Str dir =>
      let outputKeyPath := path_join dir KEY_STORE_PATH in
      let outputKeyExists := pathExists outputKeyPath in
      let outputConfigPath := path_join dir CONFIG_STORE_PATH in
      let outputConfigExists := pathExists outputConfigPath in
      key <- (if outputKeyExists then
                console_log ("Using key from " ++ outputKeyPath) ;;
                text <- read_file outputKeyPath ;;
                ret (Str text)
              else
                make_dir dir ;;
                ret (reply response "Key")) ;;
      if negb (truthy key) then throw MustProvideKey else
      (if negb outputKeyExists then write_file outputKeyPath key else ret tt) ;;
      existingConfig <- (if outputConfigExists then
                           text <- read_file outputConfigPath ;;
                           parse text
                         else ret Undefined) ;;
      let id := or_else (reply response "Id") (optional existingConfig "Id") in
      if negb (truthy id) || le_zero id then throw MustProvideId else
      let name := or_else (reply response "Name") (optional existingConfig "Name") in
      let scope :=
        or_else (reply response "Scope")
                (or_else (Str "global") (optional existingConfig "Scope")) in
      if negb (truthy name) then throw MustProvideName else
      name' <- trimmed name ;;
      scope' <- trimmed scope ;;
      saveConfig (mkSaved (trim dir) id name' scope') ;;
      key' <- trimmed key ;;
      name'' <- trimmed name ;;
      scope'' <- trimmed scope ;;
      ret (mkConfig (trim dir) key' id name'' scope'')
  | _ => throw TypeError
  end.

End GetConfig.

(** What [saveConfig] stores of a [Config]. *)
Definition saved_of (config : Config) : SavedConfig :=
  mkSaved (OutputDir config) (Id config) (Name config) (Scope config).

(** An effect that leaves [key.txt] of the output directory alone: a line
    on the console or a write of the saved configuration. *)
Definition leaves_key (path_join : string -> string -> string)
           (trim : string -> string) (dir : string) (e : Effect) : Prop :=
  match e with
  | Log _ => True
  | Mkdir _ => False
  | WriteFile path _ => path = path_join (trim dir) CONFIG_STORE_PATH
  end.

(** A file system that shows every file a run has written. *)
Definition keeps (env : Env) (effects : list Effect) : Prop :=
  forall path text,
    In (WriteFile path (Str text)) effects ->
    accessSync env path = true /\ readFile env path = Some text.

(** Surrounding blanks removed: a [trim] for the samples. *)
Fixpoint strip_left (s : string) : string :=
  match s with
  | String " " rest => strip_left rest
  | _ => s
  end.

Fixpoint reverse (s : string) : string :=
  match s with
  | EmptyString => EmptyString
  | String c rest => (reverse rest ++ String c EmptyString)%string
  end.

Definition strip (s : string) : string :=
  reverse (strip_left (reverse (strip_left s))).

Definition sample_join (dir file : string) : string :=
  (dir ++ "/" ++ file)%string.

Definition sample_saved : value :=
  Obj [("OutputDir", Str "out"); ("Id", Num 7); ("Name", Str "wins");
       ("Scope", Str "season")].

(** An empty directory tree where every call succeeds. *)
Definition fresh : Env :=
  mkEnv (fun _ => false) (fun _ => None) (fun _ => true) (fun _ _ => true).

(** The tree after a first run into [out] with the key [secret]. *)
Definition revisited : Env :=
  mkEnv (fun _ => true)
        (fun path => if (path =? "out/key.txt")%string then Some "secret"
                     else Some "saved")
        (fun _ => true) (fun _ _ => true).

Definition first_answers : list (string * value) :=
  [("OutputDir", Str "out"); ("Key", Str "secret"); ("Id", Num 7);
   ("Name", Str "wins"); ("Scope", Str "season")].

End Config.

(** ** Facts about JavaScript strings *)

Module StringFacts.

Lemma length_append (p q : string) :
  String.length (p ++ q) = (String.length p + String.length q)%nat.
Proof.
  induction p as [|c p IH]; simpl; [reflexivity | now rewrite IH].
Qed.

Lemma substring_append (p q : string) :
  String.substring 0 (String.length p) (p ++ q) = p.
Proof.
  induction p as [|c p IH]; simpl.
  - now destruct q.
  - now rewrite IH.
Qed.

Lemma substring_0_0 (s : string) : String.substring 0 0 s = "".
Proof. now destruct s. Qed.

Lemma index_first_space (p r : string) :
  occurs space p = false ->
  String.index 0 " " (p ++ String space r) = Some (String.length p).
Proof.
  induction p as [|c p IH]; intros H.
  - simpl. destruct (ascii_dec " " space) as [_|n]; [now destruct r | now elim n].
  - cbn [occurs] in H. apply orb_false_iff in H as [Hc Hp].
    cbn [String.append index prefix].
    destruct (ascii_dec " " c) as [e|_].
    + subst c. discriminate Hc.
    + now rewrite (IH Hp).
Qed.

Lemma index_no_space (s : string) :
  occurs space s = false -> String.index 0 " " s = None.
Proof.
  induction s as [|c s IH]; intros H; [reflexivity|].
  cbn [occurs] in H. apply orb_false_iff in H as [Hc Hs].
  cbn [index prefix].
  destruct (ascii_dec " " c) as [e|_].
  - subst c. discriminate Hc.
  - now rewrite (IH Hs).
Qed.

(** [line.substring(0, line.indexOf(" "))] is what stands before the first
    space. *)
Lemma before_first_space (tok rest : string) :
  occurs space tok = false ->
  JS.substring 0 (indexOf " " (tok ++ String space rest)) (tok ++ String space rest) = tok.
Proof.
  intros H. unfold indexOf, JS.substring.
  rewrite (index_first_space _ _ H), length_append. simpl String.length.
  set (n := String.length tok). set (m := String.length rest).
  replace (Z.min (Z.min (Z.max 0 0) (Z.of_nat (n + S m)))
                 (Z.min (Z.max (Z.of_nat n) 0) (Z.of_nat (n + S m)))) with 0 by lia.
  replace (Z.max (Z.min (Z.max 0 0) (Z.of_nat (n + S m)))
                 (Z.min (Z.max (Z.of_nat n) 0) (Z.of_nat (n + S m)))) with (Z.of_nat n) by lia.
  rewrite Z.sub_0_r, Nat2Z.id. apply substring_append.
Qed.

(** Without a space [indexOf] is -1 and the substring is empty. *)
Lemma no_space_empty (line : string) :
  occurs space line = false ->
  JS.substring 0 (indexOf " " line) line = "".
Proof.
  intros H. unfold indexOf, JS.substring. rewrite (index_no_space _ H).
  set (n := String.length line).
  replace (Z.min (Z.min (Z.max 0 0) (Z.of_nat n))
                 (Z.min (Z.max (-1) 0) (Z.of_nat n))) with 0 by lia.
  replace (Z.max (Z.min (Z.max 0 0) (Z.of_nat n))
                 (Z.min (Z.max (-1) 0) (Z.of_nat n))) with 0 by lia.
  apply substring_0_0.
Qed.

End StringFacts.

(** ** Position recovery *)

Module Recovery.

Import Download StringFacts.

(** The page stored is the counter's last value before its increment. *)
Lemma fold_page (lines : list string) (r : Position) (i : Z) :
  page r = i - 1 ->
  page (fst (fold_left read_line lines (r, i)))
  = i - 1 + Z.of_nat (List.length (filter nonempty lines)).
Proof.
  revert r i. induction lines as [|l lines IH]; intros r i Hr; simpl.
  - lia.
  - unfold nonempty at 1. destruct (String.length l =? 0)%nat; simpl.
    + now apply IH.
    + rewrite IH by (simpl; lia). lia.
Qed.

(** Empty lines leave the result alone. *)
Lemma fold_empty_lines (after : list string) (acc : Position * Z) :
  Forall (fun l => l = "") after ->
  fold_left read_line after acc = acc.
Proof.
  intros H. revert acc. induction H as [|l after Hl _ IH]; intros [r i]; simpl.
  - reflexivity.
  - subst l. simpl. apply IH.
Qed.

(** The token stored is the one of the last non-empty line. *)
Lemma fold_last_token (before after : list string) (line : string) :
  nonempty line = true ->
  Forall (fun l => l = "") after ->
  nextPageToken (getLastPosition (Some (before ++ line :: after)%list))
  = decode (JS.substring 0 (indexOf " " line) line).
Proof.
  intros Hne Hafter. unfold getLastPosition.
  rewrite fold_left_app. simpl fold_left.
  destruct (fold_left read_line before _) as [r i].
  unfold read_line at 2. unfold nonempty in Hne.
  destruct (String.length line =? 0)%nat; [discriminate|].
  now rewrite (fold_empty_lines _ _ Hafter).
Qed.

Lemma nonempty_with_space (tok rest : string) :
  nonempty (tok ++ String space rest) = true.
Proof.
  unfold nonempty. rewrite length_append. simpl.
  now rewrite Nat.add_succ_r.
Qed.

(** C2 as stated fails in its example.  [getLastPosition] never reads the
    words "Got page 5" of a line: it counts the non-empty lines.  A log that
    holds the example line alone gives page 2, not 6. *)
Lemma example_line_alone_gives_page_2 :
  getLastPosition (Some ["abc <- Next page token | Got page 5 (xyz)"])
  = mkPosition (Str "abc") 2
  /\ ~ (forall before after,
          Forall (fun l => l = "") after ->
          getLastPosition
            (Some (before ++ "abc <- Next page token | Got page 5 (xyz)" :: after)%list)
          = mkPosition (Str "abc") 6).
Proof.
  split; [reflexivity|].
  intros H. specialize (H [] [] (Forall_nil _)). discriminate H.
Qed.

(** C2, amended.  Without a log file [getLastPosition] returns token [null]
    and page 1.  With one, the page is 1 plus the number of non-empty lines,
    and the token is what the last non-empty line holds before its first
    space, with "null" read as [null].  A log whose last non-empty line is
    "abc <- Next page token | Got page 5 (xyz)" gives token "abc" and, as
    page, 2 plus the number of non-empty lines before that line: page 6 when
    it is the fifth non-empty line. *)
Theorem getLastPosition_spec :
  getLastPosition None = mkPosition Null 1
  /\ (forall lines,
        page (getLastPosition (Some lines))
        = 1 + Z.of_nat (List.length (filter nonempty lines)))
  /\ (forall before after tok rest,
        occurs space tok = false ->
        Forall (fun l => l = "") after ->
        nextPageToken
          (getLastPosition (Some (before ++ (tok ++ String space rest)%string :: after)%list))
        = decode tok)
  /\ (forall before after,
        List.length (filter nonempty before) = 4%nat ->
        Forall (fun l => l = "") after ->
        getLastPosition
          (Some (before ++ "abc <- Next page token | Got page 5 (xyz)" :: after)%list)
        = mkPosition (Str "abc") 6)
  /\ (forall before after,
        Forall (fun l => l = "") after ->
        getLastPosition
          (Some (before ++ "abc <- Next page token | Got page 5 (xyz)" :: after)%list)
        = mkPosition (Str "abc")
                     (2 + Z.of_nat (List.length (filter nonempty before)))).
Proof.
  assert (Hpage : forall lines,
             page (getLastPosition (Some lines))
             = 1 + Z.of_nat (List.length (filter nonempty lines))).
  { intros lines. unfold getLastPosition.
    rewrite fold_page by reflexivity. lia. }
  assert (Htok : forall before after tok rest,
             occurs space tok = false ->
             Forall (fun l => l = "") after ->
             nextPageToken
               (getLastPosition (Some (before ++ (tok ++ String space rest)%string :: after)%list))
             = decode tok).
  { intros before after tok rest Hsp Hafter.
    rewrite fold_last_token by (auto using nonempty_with_space).
    now rewrite before_first_space. }
  assert (Hline : forall before after,
             Forall (fun l => l = "") after ->
             getLastPosition
               (Some (before ++ "abc <- Next page token | Got page 5 (xyz)" :: after)%list)
             = mkPosition (Str "abc")
                          (2 + Z.of_nat (List.length (filter nonempty before)))).
  { intros before after Hafter.
    set (line := "abc <- Next page token | Got page 5 (xyz)").
    pose proof (Hpage (before ++ line :: after)%list) as Hp.
    pose proof (Htok before after "abc" "<- Next page token | Got page 5 (xyz)"
                  eq_refl Hafter) as Ht.
    change ("abc" ++ String space "<- Next page token | Got page 5 (xyz)") with line in Ht.
    rewrite filter_app, length_app in Hp. cbn [filter] in Hp.
    change (nonempty line) with true in Hp. cbn [List.length] in Hp.
    assert (Hz : List.length (filter nonempty after) = 0%nat).
    { clear -Hafter. induction Hafter as [|l after Hl _ IH]; [reflexivity|].
      subst l. exact IH. }
    rewrite Hz in Hp.
    destruct (getLastPosition (Some (before ++ line :: after)%list)) as [t p].
    cbn [page nextPageToken] in Hp, Ht. rewrite Hp, Ht.
    change (decode "abc") with (Str "abc"). f_equal. lia. }
  split; [reflexivity|]. split; [exact Hpage|]. split; [exact Htok|].
  split; [|exact Hline].
  intros before after Hlen Hafter. rewrite (Hline before after Hafter), Hlen.
  reflexivity.
Qed.

(** C2 at a log of two lines followed by an empty one. *)
Lemma getLastPosition_spec_witness :
  nextPageToken
    (getLastPosition
       (Some ["t1 <- Next page token | Got page 1 (null)";
              "null <- Next page token | Got page 2 (t1)"; ""]))
  = Null.
Proof.
  exact (proj1 (proj2 (proj2 getLastPosition_spec))
           ["t1 <- Next page token | Got page 1 (null)"] [""]
           "null" "<- Next page token | Got page 2 (t1)"
           eq_refl (Forall_cons _ eq_refl (Forall_nil _))).
Defined.

End Recovery.

(** ** The page fetcher *)

Module Fetcher.

Import Download StringFacts.

(** The status test [status != 429 && status < 200 && status >= 300] holds
    of no status. *)
Lemma status_test_never (s : Z) :
  negb (s =? 429) && (s <? 200) && (s >=? 300) = false.
Proof.
  destruct (s <? 200) eqn:Hlo; [|now rewrite andb_false_r].
  destruct (s >=? 300) eqn:Hhi; [|now rewrite andb_false_r].
  apply Z.ltb_lt in Hlo. apply Z.geb_le in Hhi. lia.
Qed.

(** C5, as the code has it.  [downloadPage] never throws the
    "Unexpected error" of the status test; a response of any status but
    429, 500 say, whose body parses to an object with entries is returned
    as a page. *)
Theorem downloadPage_accepts_any_status :
  forall (JSON_parse : string -> option value) position BASE_URL,
    (forall net s, downloadPage JSON_parse position BASE_URL net
                   <> Thrown (UnexpectedError s))
    /\ (forall s sText body json entries,
          s <> 429 ->
          JSON_parse body = Some json ->
          get json "entries" = Some entries ->
          truthy entries = true ->
          downloadPage JSON_parse position BASE_URL
            (FetchResolved (mkResponse s sText (Some body)))
          = Returned json).
Proof.
  intros JSON_parse position BASE_URL. split.
  - intros [reason|[s sText [body|]]] s'; simpl; try discriminate.
    rewrite status_test_never.
    destruct (s =? 429); [discriminate|].
    destruct (JSON_parse body) as [json|]; [|discriminate].
    destruct (get json "entries") as [entries|]; [|discriminate].
    destruct (truthy entries); discriminate.
  - intros s sText body json entries Hs Hparse Hget Htruthy. simpl.
    rewrite status_test_never.
    apply Z.eqb_neq in Hs. rewrite Hs, Hparse, Hget, Htruthy. reflexivity.
Qed.

(** C5 at status 500. *)
Lemma downloadPage_accepts_any_status_witness :
  downloadPage (fun _ => Some page_500) (mkPosition Null 1) "https://host/entries"
    (FetchResolved (mkResponse 500 "Internal Server Error" (Some "body")))
  = Returned page_500.
Proof.
  apply (proj2 (downloadPage_accepts_any_status
                  (fun _ => Some page_500) (mkPosition Null 1) "https://host/entries")
           500 "Internal Server Error" "body" page_500
           (Obj [("a", Obj [("id", Str "1"); ("value", Num 10)])]));
    [lia | reflexivity | reflexivity | reflexivity].
Defined.

(** C6 as stated fails: a position whose token is the empty string is one
    with a token set, and its request carries no [page_token]. *)
Lemma page_token_not_always_included :
  ~ (forall position BASE_URL,
       (nextPageToken position = Null ->
        forall v, ~ In ("page_token", v) (searchParams (request_url position BASE_URL)))
       /\ (forall t, nextPageToken position = Str t ->
                     In ("page_token", t) (searchParams (request_url position BASE_URL)))
       /\ In max_page_size (searchParams (request_url position BASE_URL))
       /\ In order_by (searchParams (request_url position BASE_URL))).
Proof.
  intros H.
  destruct (H (mkPosition (Str "") 2) "https://host/entries") as (_ & Hset & _).
  specialize (Hset "" eq_refl). simpl in Hset.
  destruct Hset as [E|[E|[]]]; discriminate E.
Qed.

(** C6, amended.  With token [null] the query is exactly
    [max_page_size=100&order_by=desc]; with a non-empty string token it is
    that followed by [page_token] holding the token itself; whatever the
    token both fixed parameters are there. *)
Theorem request_url_params :
  forall position BASE_URL,
    (nextPageToken position = Null ->
     searchParams (request_url position BASE_URL) = [max_page_size; order_by])
    /\ (forall t, nextPageToken position = Str t -> t <> "" ->
          searchParams (request_url position BASE_URL)
          = [max_page_size; order_by; ("page_token", t)])
    /\ In max_page_size (searchParams (request_url position BASE_URL))
    /\ In order_by (searchParams (request_url position BASE_URL)).
Proof.
  intros [tok p] BASE_URL. unfold request_url. simpl nextPageToken.
  repeat split.
  - intros ->. reflexivity.
  - intros t -> Ht. simpl truthy.
    apply String.eqb_neq in Ht. rewrite Ht. reflexivity.
  - destruct (truthy tok); simpl; auto.
  - destruct (truthy tok); simpl; auto.
Qed.

(** C6 amended, at the token "abc". *)
Lemma request_url_params_witness :
  searchParams (request_url (mkPosition (Str "abc") 6) "https://host/entries")
  = [max_page_size; order_by; ("page_token", "abc")].
Proof.
  apply (proj1 (proj2 (request_url_params (mkPosition (Str "abc") 6)
                         "https://host/entries")) "abc");
    [reflexivity | discriminate].
Defined.

(** C9, as the code has it.  When the last non-empty line of the log has
    no space, the recovered token is the empty string, not [null], and the
    request built from the recovered position is the request of a first
    page: it carries no [page_token]. *)
Theorem malformed_line_restarts_at_first_page :
  forall before after line BASE_URL,
    nonempty line = true ->
    occurs space line = false ->
    Forall (fun l => l = "") after ->
    let position := getLastPosition (Some (before ++ line :: after)%list) in
    nextPageToken position = Str ""
    /\ request_url position BASE_URL = request_url (mkPosition Null 1) BASE_URL
    /\ forall v, ~ In ("page_token", v) (searchParams (request_url position BASE_URL)).
Proof.
  intros before after line BASE_URL Hne Hsp Hafter position.
  assert (Htok : nextPageToken position = Str "").
  { unfold position. rewrite Recovery.fold_last_token by assumption.
    now rewrite no_space_empty. }
  assert (Hurl : request_url position BASE_URL = request_url (mkPosition Null 1) BASE_URL).
  { unfold request_url. now rewrite Htok. }
  repeat split; auto.
  intros v. rewrite Hurl. simpl. intros [E|[E|[]]]; discriminate E.
Qed.

(** C9 at a log whose second line was cut short to "abc". *)
Lemma malformed_line_restarts_at_first_page_witness :
  let position :=
    getLastPosition (Some ["t1 <- Next page token | Got page 1 (null)"; "abc"]) in
  nextPageToken position = Str ""
  /\ request_url position "https://host/entries"
     = request_url (mkPosition Null 1) "https://host/entries"
  /\ forall v, ~ In ("page_token", v)
                    (searchParams (request_url position "https://host/entries")).
Proof.
  exact (malformed_line_restarts_at_first_page
           ["t1 <- Next page token | Got page 1 (null)"] [] "abc"
           "https://host/entries" eq_refl eq_refl (Forall_nil _)).
Defined.

End Fetcher.

(** ** The write queues of download.ts *)

Module Pipeline.

Import Download.

(** C3, as download.ts has it.  The taskQueue worker tests [id && value]:
    on the page [{entries: {a: {id: "1", value: 10}, b: {id: "2", value: "x"}}}]
    it appends the row "2,x" after the row "1,10". *)
Theorem taskQueue_writes_non_numeric_value :
  entry_row entry_x = Returned (Some ("2,x" ++ LF))
  /\ exists st,
       steps (answers mixed_page) sample_base (start sample_base None)
         [FetchDone ok_response; TaskProcess; TaskStep true; TaskStep true; TaskStep true]
       = Some st
       /\ taskWorker st = TaskIdle
       /\ taskQueue st = []
       /\ chunks (dataStream st) = ["1,10" ++ LF; "2,x" ++ LF].
Proof.
  split; [reflexivity|].
  eexists. split; [vm_compute; reflexivity|]. vm_compute. repeat split.
Qed.

(** C10.  An entry whose id is present and whose value is the number 0
    yields no row: the worker of download.ts passes over it and leaves the
    data stream as it was. *)
Theorem zero_value_dropped :
  forall entry id,
    get entry "id" = Some id ->
    truthy id = true ->
    get entry "value" = Some (Num 0) ->
    entry_row entry = Returned None
    /\ forall JSON_parse BASE_URL st rest drained,
         taskWorker st = TaskRunning (entry :: rest) ->
         exists st',
           step JSON_parse BASE_URL st (TaskStep drained) = Some st'
           /\ dataStream st' = dataStream st
           /\ taskWorker st' = TaskRunning rest.
Proof.
  intros entry id Hid Htruthy Hvalue.
  assert (Hrow : entry_row entry = Returned None).
  { unfold entry_row. rewrite Hid, Hvalue. simpl. now rewrite andb_false_r. }
  split; [exact Hrow|].
  intros JSON_parse BASE_URL st rest drained Hw.
  unfold step. rewrite Hw, Hrow. eexists. split; [reflexivity|]. split; reflexivity.
Qed.

(** C10 at the entry [{id: "7", value: 0}]. *)
Lemma zero_value_dropped_witness :
  entry_row (Obj [("id", Str "7"); ("value", Num 0)]) = Returned None.
Proof.
  exact (proj1 (zero_value_dropped (Obj [("id", Str "7"); ("value", Num 0)])
                  (Str "7") eq_refl eq_refl eq_refl)).
Defined.

(** C1, as download.ts has it.  The rows go through taskQueue and the log
    line through logQueue, each with a worker of its own.  On a first page
    of two entries: the first row is written and [stream.write] returns
    false, so the taskQueue worker waits for "drain"; the logQueue worker
    then writes the line of page 1, while the second row of that page is
    not yet in the data stream. *)
Theorem log_line_written_before_rows :
  exists st,
    steps (answers first_page) sample_base (start sample_base None)
      [FetchDone ok_response; TaskProcess; TaskStep false; LogProcess true]
    = Some st
    /\ chunks (logStream st) = ["t <- Next page token | Got page 1 (null)" ++ LF]
    /\ chunks (dataStream st) = ["1,10" ++ LF]
    /\ taskWorker st = TaskAwaitDrain [entry_b]
    /\ entry_row entry_b = Returned (Some ("2,20" ++ LF)).
Proof.
  eexists. split; [vm_compute; reflexivity|]. vm_compute. repeat split.
Qed.

(** The same page without back-pressure: the first row is written and
    [stream.write] returns true; the logQueue worker, started in a microtask
    of its own, writes the log line before the worker of the taskQueue comes
    to the second row. *)
Lemma log_line_between_rows :
  exists st,
    steps (answers first_page) sample_base (start sample_base None)
      [FetchDone ok_response; TaskProcess; TaskStep true; LogProcess true] = Some st
    /\ chunks (logStream st) = ["t <- Next page token | Got page 1 (null)" ++ LF]
    /\ chunks (dataStream st) = ["1,10" ++ LF]
    /\ taskWorker st = TaskRunning [entry_b].
Proof.
  eexists. split; [vm_compute; reflexivity|]. vm_compute. repeat split.
Qed.

End Pipeline.

(** ** The main loop of download.ts *)

Module Loop.

Import Download.

(** What [downloadPage] returns is an object with entries: the loop backs
    off exactly when [downloadPage] throws. *)
Lemma returned_page_has_entries JSON_parse position BASE_URL net json :
  downloadPage JSON_parse position BASE_URL net = Returned json ->
  truthy json = true
  /\ exists entries, get json "entries" = Some entries /\ truthy entries = true.
Proof.
  destruct net as [reason|[s sText [body|]]]; simpl; try discriminate.
  rewrite Fetcher.status_test_never.
  destruct (s =? 429); [discriminate|].
  destruct (JSON_parse body) as [j|]; [|discriminate].
  destruct (get j "entries") as [entries|] eqn:Hget; [|discriminate].
  destruct (truthy entries) eqn:Ht; [|discriminate].
  intros [= <-]. split; [|eauto].
  destruct j; simpl in *; try reflexivity; try discriminate;
    injection Hget as <-; discriminate Ht.
Qed.


(** The loop after a page was returned. *)
Lemma on_fetch_done_returned JSON_parse BASE_URL st net json :
  downloadPage JSON_parse (position st) BASE_URL net = Returned json ->
  let message := logMessage (next_token json) (position st) in
  let st1 := set_task st (taskQueue st ++ [json]) (taskWorker st) in
  let st2 := set_log st1 (logQueue st1 ++ [message]) (logWorker st1) in
  let st3 := emit st2 (Pushed json message) in
  let st4 := if (page (position st3) =? 1) || (page (position st3) mod 10 =? 0)
             then emit st3 (Console (got_page (page (position st3)))) else st3 in
  let st5 := emit st4 (Console "No next page, finished download!") in
  on_fetch_done JSON_parse BASE_URL st net
  = if negb (truthy (next_token json))
    then set_loop (call_teardown st5) (position (call_teardown st5))
           (backoff (call_teardown st5)) (AwaitTeardown (List.length (teardowns st5)))
    else loop_top BASE_URL
           (set_loop st4 (mkPosition (next_token json) (page (position st4) + 1))
              STARTING_BACKOFF (pc st4)).
Proof.
  intros H. destruct (returned_page_has_entries _ _ _ _ _ H) as (Hj & entries & Hget & He).
  unfold on_fetch_done. rewrite H, Hget, Hj, He. reflexivity.
Qed.



(** *** The sleeps of a whole run *)






Lemma calm_refl st : calm st st.
Proof.
  unfold calm. repeat split. exists []. simpl. now rewrite app_nil_r.
Qed.








Section Sleeps.

Variable JSON_parse : string -> option value.
Variable BASE_URL : string.









End Sleeps.



(** Two failures, a success, a failure: the sleeps last 5, 10 and 5
    seconds. *)
Lemma sleeps_example :
  exists st,
    steps (answers first_page) sample_base (start sample_base None)
      [FetchDone rate_limited; SleepDone; FetchDone rate_limited; SleepDone;
       FetchDone ok_response; FetchDone rate_limited]
    = Some st
    /\ filter (fun o => match o with Slept _ => true | _ => false end) (out st)
       = [Slept 5; Slept 10; Slept 5].
Proof.
  eexists. split; [vm_compute; reflexivity|]. vm_compute. reflexivity.
Qed.

(** C4, as download.ts has it.  Its loop is [while (true)] and reads no
    flag.  A signal arrives while the first request is pending; [teardown]
    finds both queues idle and ends both streams; the request then succeeds,
    its page is pushed, and the loop requests the next page.  The pushed
    page meets an ended stream. *)
Theorem loop_fetches_after_signal :
  exists st,
    steps (answers first_page) sample_base (start sample_base None)
      [Signal; DataEnded 0; LogEnded 0; FetchDone ok_response]
    = Some st
    /\ out st
       = [Console "Set up write streams, starting download...";
          FetchStarted (mkURL sample_base [max_page_size; order_by]);
          SignalReceived;
          Console "Finished writing";
          Console "Closed write streams";
          Pushed first_page "t <- Next page token | Got page 1 (null)";
          Console "Got page 1";
          FetchStarted (mkURL sample_base [max_page_size; order_by; ("page_token", "t")])]
    /\ pc st = AwaitFetch
    /\ phase (dataStream st) = Closed
    /\ phase (logStream st) = Closed
    /\ taskQueue st = [first_page]
    /\ steps (answers first_page) sample_base st [TaskProcess; TaskStep true] = None.
Proof.
  eexists. split; [vm_compute; reflexivity|]. vm_compute. repeat split.
Qed.

End Loop.

(** ** The revision: what its single queue and its flag give *)

Module RevisionFacts.

Import Download Revision.

(** On the page [{entries: {a: {id: "1", value: 10}, b: {id: "2", value: "x"}}}]
    the revised worker appends the row "1,10" alone, and then the log
    line. *)
Lemma writeTaskQueue_skips_non_numeric_value :
  forall payload, exists st,
    Revision.steps (answers mixed_page) sample_base payload
      (Revision.start sample_base payload None)
      [Revision.FetchDone ok_response; Process; Step true; Step true; Step true]
    = Some st
    /\ worker st = Idle
    /\ chunks (Revision.dataStream st) = ["1,10" ++ LF]
    /\ chunks (Revision.logStream st)
       = ["undefined <- Next page token | Got page 1 (null)" ++ LF]
    /\ journal st
       = [Took (mkWriteTask mixed_page "undefined <- Next page token | Got page 1 (null)");
          WroteData ("1,10" ++ LF);
          WroteLog ("undefined <- Next page token | Got page 1 (null)" ++ LF)].
Proof.
  intros payload. eexists. split; [vm_compute; reflexivity|]. vm_compute. repeat split.
Qed.

(** A value 0 is a number: the revised worker writes its row. *)
Lemma zero_value_written :
  Revision.entry_row (Obj [("id", Str "7"); ("value", Num 0)])
  = Returned (Some ("7,0" ++ LF)).
Proof. reflexivity. Qed.

(** An entry that is [null] is not skipped: reading its id throws, in both
    revisions. *)
Lemma null_entry_throws :
  Download.entry_row Null = Thrown TypeError
  /\ Revision.entry_row Null = Thrown TypeError.
Proof. split; reflexivity. Qed.

(** The rows of a page are those of the entries whose id is truthy and
    whose value is a number, in order. *)
Lemma page_rows_filter (entries : list value) :
  Forall (fun e => e <> Null /\ e <> Undefined) entries ->
  page_rows entries = Some (map row (filter numeric entries)).
Proof.
  induction 1 as [|e entries [Hn Hu] _ IH]; [reflexivity|].
  cbn [page_rows filter]. rewrite IH.
  unfold Revision.entry_row, numeric, row.
  destruct e; try contradiction; cbn [get];
    match goal with |- context [if ?c then _ else _] => destruct c end; reflexivity.
Qed.

(** Reduction of the state accessors over the state updates. *)
Ltac state_simpl :=
  cbn [Revision.position Revision.backoff running Revision.pc queue worker
       Revision.dataStream Revision.logStream Revision.teardowns Revision.out journal
       Revision.set_loop set_running set_queue Revision.set_dataStream
       Revision.set_logStream Revision.set_teardowns Revision.emit note fst snd].

Ltac split_ifs :=
  repeat match goal with
         | |- context [if ?c then _ else _] => destruct c
         end.

Lemma fetch_count_snoc (outs : list Out) (o : Out) :
  fetch_count (outs ++ [o]) = (fetch_count outs + if is_fetch o then 1 else 0)%nat.
Proof.
  unfold fetch_count. rewrite filter_app, length_app. simpl.
  destruct (is_fetch o); reflexivity.
Qed.

Section Stopped.

Variable JSON_parse : string -> option value.
Variable BASE_URL : string.
Variable payload : list WriteTask -> Worker -> Z.

Lemma chunks_stream_end (s : WriteStream) : chunks (stream_end s) = chunks s.
Proof. unfold stream_end. now destruct (phase s). Qed.

Lemma teardown_close_untouched st :
  untouched st (fst (Revision.teardown_close st))
  /\ running (fst (Revision.teardown_close st)) = running st.
Proof.
  unfold untouched, Revision.teardown_close. split_ifs; state_simpl;
    rewrite ?fetch_count_snoc, ?chunks_stream_end; cbn [is_fetch];
    rewrite ?Nat.add_0_r; auto 10.
Qed.

Lemma teardown_payload_untouched st :
  untouched st (fst (teardown_payload payload st))
  /\ running (fst (teardown_payload payload st)) = running st.
Proof.
  unfold teardown_payload. destruct (_ >? 0).
  - unfold untouched; auto 10.
  - apply teardown_close_untouched.
Qed.

Lemma call_teardown_untouched st :
  untouched st (Revision.call_teardown payload st)
  /\ running (Revision.call_teardown payload st) = false.
Proof.
  unfold Revision.call_teardown, Revision.teardown.
  destruct (negb (idle (set_running st false))).
  - unfold untouched; auto 10.
  - destruct (teardown_payload_untouched (set_running st false)) as [[Hp Hf] Hr].
    destruct (teardown_payload payload (set_running st false)) as [st1 td].
    cbn [fst] in *. unfold untouched. state_simpl. auto.
Qed.

Lemma resume_teardown_untouched st i :
  untouched st (Revision.resume_teardown st i (teardown_payload payload))
  /\ running (Revision.resume_teardown st i (teardown_payload payload)) = running st.
Proof.
  unfold Revision.resume_teardown.
  destruct (teardown_payload_untouched st) as [[Hp Hf] Hr].
  destruct (teardown_payload payload st) as [st1 td].
  cbn [fst] in *. unfold untouched. state_simpl. auto.
Qed.

Lemma quiet_refl st : quiet st st.
Proof. unfold quiet; auto. Qed.

Lemma quiet_trans st1 st2 st3 : quiet st1 st2 -> quiet st2 st3 -> quiet st1 st3.
Proof.
  intros [(Hw & Hj & Hd & Hl) Hr] [(Hw' & Hj' & Hd' & Hl') Hr']. unfold quiet.
  split; [repeat split; congruence|].
  intros H. destruct (Hr H) as [H2 Hf], (Hr' H2) as [H3 Hf'].
  split; congruence.
Qed.

Lemma quiet_set_loop st p b c : quiet st (Revision.set_loop st p b c).
Proof. unfold quiet; state_simpl; auto 10. Qed.

Lemma quiet_push st q : quiet st (set_queue st q (worker st)).
Proof. unfold quiet; state_simpl; auto 10. Qed.

Lemma quiet_set_dataStream st s :
  chunks s = chunks (Revision.dataStream st) ->
  quiet st (Revision.set_dataStream st s).
Proof. intros H. unfold quiet; state_simpl; auto 10. Qed.

Lemma quiet_set_logStream st s :
  chunks s = chunks (Revision.logStream st) ->
  quiet st (Revision.set_logStream st s).
Proof. intros H. unfold quiet; state_simpl; auto 10. Qed.

Lemma quiet_set_teardowns st tds : quiet st (Revision.set_teardowns st tds).
Proof. unfold quiet; state_simpl; auto 10. Qed.

Lemma quiet_emit st o : is_fetch o = false -> quiet st (Revision.emit st o).
Proof.
  intros H. unfold quiet; state_simpl. rewrite fetch_count_snoc, H, Nat.add_0_r.
  auto 10.
Qed.

Lemma quiet_call_teardown st : quiet st (Revision.call_teardown payload st).
Proof.
  destruct (call_teardown_untouched st) as [[Hp Hf] Hr].
  unfold quiet; auto.
Qed.

Lemma quiet_resume_teardown st i :
  quiet st (Revision.resume_teardown st i (teardown_payload payload)).
Proof.
  destruct (resume_teardown_untouched st i) as [[Hp Hf] Hr].
  unfold quiet. split; [exact Hp|]. intros H. split; congruence.
Qed.

Lemma quiet_loop_top st : quiet st (Revision.loop_top BASE_URL payload st).
Proof.
  unfold Revision.loop_top. destruct (running st) eqn:Hr.
  - unfold quiet; state_simpl. rewrite Hr. split; [auto 10 | discriminate].
  - eapply quiet_trans; [apply quiet_call_teardown | apply quiet_set_loop].
Qed.

(** Splits a goal [quiet st (f (g (... st)))] along the updates. *)
Ltac quiet_chain :=
  lazymatch goal with
  | |- quiet ?s ?s => apply quiet_refl
  | |- quiet ?s (Revision.set_loop ?x _ _ _) =>
      apply (quiet_trans s x); [quiet_chain | apply quiet_set_loop]
  | |- quiet ?s (set_queue ?x _ _) =>
      apply (quiet_trans s x); [quiet_chain | apply quiet_push]
  | |- quiet ?s (Revision.emit ?x _) =>
      apply (quiet_trans s x); [quiet_chain | apply quiet_emit; reflexivity]
  | |- quiet ?s (Revision.call_teardown _ ?x) =>
      apply (quiet_trans s x); [quiet_chain | apply quiet_call_teardown]
  | |- quiet ?s (Revision.loop_top _ _ ?x) =>
      apply (quiet_trans s x); [quiet_chain | apply quiet_loop_top]
  | |- quiet ?s (Revision.set_dataStream ?x _) =>
      apply (quiet_trans s x);
      [quiet_chain | apply quiet_set_dataStream; try apply chunks_stream_end; reflexivity]
  | |- quiet ?s (Revision.set_logStream ?x _) =>
      apply (quiet_trans s x);
      [quiet_chain | apply quiet_set_logStream; try apply chunks_stream_end; reflexivity]
  | |- quiet ?s (Revision.set_teardowns ?x _) =>
      apply (quiet_trans s x); [quiet_chain | apply quiet_set_teardowns]
  | |- quiet ?s (Revision.resume_teardown ?x _ _) =>
      apply (quiet_trans s x); [quiet_chain | apply quiet_resume_teardown]
  end.

Lemma quiet_on_fetch_done st net :
  quiet st (Revision.on_fetch_done JSON_parse BASE_URL payload st net).
Proof.
  unfold Revision.on_fetch_done. cbv zeta. split_ifs; quiet_chain.
Qed.

Lemma quiet_on_sleep_done st :
  quiet st (Revision.on_sleep_done BASE_URL payload st).
Proof.
  unfold Revision.on_sleep_done. quiet_chain.
Qed.

Local Abbreviation step := (Revision.step JSON_parse BASE_URL payload).
Local Abbreviation steps := (Revision.steps JSON_parse BASE_URL payload).

(** Once [running] is false no step makes it true again, and no step
    starts a request. *)
Lemma step_stopped st ev st' :
  step st ev = Some st' ->
  running st = false ->
  running st' = false
  /\ fetch_count (Revision.out st') = fetch_count (Revision.out st).
Proof.
  intros Hstep Hr.
  assert (Hq : forall s, quiet st s -> running s = false
                         /\ fetch_count (Revision.out s) = fetch_count (Revision.out st)).
  { intros s [_ H]. exact (H Hr). }
  destruct ev; unfold Revision.step in Hstep;
    try (destruct (Revision.busy st); [discriminate|]).
  - destruct (Revision.pc st); try discriminate.
    injection Hstep as <-. apply Hq, quiet_on_fetch_done.
  - destruct (Revision.pc st); try discriminate.
    injection Hstep as <-. apply Hq, quiet_on_sleep_done.
  - injection Hstep as <-. apply Hq. quiet_chain.
  - destruct (worker st); try discriminate.
    destruct (queue st); try discriminate.
    injection Hstep as <-. state_simpl. auto.
  - destruct (worker st) as [|[|entry rest] message| |]; try discriminate.
    + destruct (stream_write _ _); [|discriminate].
      injection Hstep as <-. state_simpl. auto.
    + destruct (Revision.entry_row entry) as [[row|]|];
        [destruct (stream_write _ _); [|discriminate]| |];
        injection Hstep as <-; state_simpl; auto.
  - destruct (worker st); try discriminate.
    injection Hstep as <-. state_simpl. auto.
  - destruct (worker st); try discriminate.
    injection Hstep as <-. state_simpl. auto.
  - destruct (nth_error _ _) as [[]|]; try discriminate.
    destruct (idle st); [|discriminate].
    injection Hstep as <-. apply Hq. quiet_chain.
  - destruct (nth_error _ _) as [[]|]; try discriminate.
    injection Hstep as <-. apply Hq. quiet_chain.
  - destruct (nth_error _ _) as [[]|]; try discriminate.
    injection Hstep as <-. apply Hq. quiet_chain.
  - destruct (nth_error _ _) as [[]|]; try discriminate.
    injection Hstep as <-. apply Hq. quiet_chain.
  - destruct (Revision.pc st); try discriminate.
    destruct (nth_error _ _) as [[]|]; try discriminate.
    injection Hstep as <-. apply Hq. quiet_chain.
Qed.

Lemma steps_stopped evs : forall st st',
  steps st evs = Some st' ->
  running st = false ->
  running st' = false
  /\ fetch_count (Revision.out st') = fetch_count (Revision.out st).
Proof.
  induction evs as [|ev evs IH]; intros st st' Hsteps Hr; cbn [Revision.steps] in Hsteps.
  - injection Hsteps as <-. auto.
  - destruct (step st ev) as [st1|] eqn:Hstep; [|discriminate].
    destruct (step_stopped _ _ _ Hstep Hr) as [Hr1 Hf1].
    destruct (IH _ _ Hsteps Hr1) as [Hr2 Hf2]. split; congruence.
Qed.

(** After a signal the revised loop starts no request: whatever happens
    next, the requests started are those started before the signal. *)
Lemma no_fetch_after_signal st evs st' :
  steps st (Revision.Signal :: evs) = Some st' ->
  running st' = false
  /\ fetch_count (Revision.out st') = fetch_count (Revision.out st).
Proof.
  cbn [Revision.steps]. destruct (step st Revision.Signal) as [st1|] eqn:Hstep; [|discriminate].
  intros Hsteps.
  assert (H1 : running st1 = false
               /\ fetch_count (Revision.out st1) = fetch_count (Revision.out st)).
  { unfold Revision.step in Hstep. destruct (Revision.busy st); [discriminate|].
    injection Hstep as <-.
    destruct (call_teardown_untouched (Revision.emit st SignalReceived)) as [[_ Hf] Hr].
    split; [exact Hr|]. rewrite Hf. state_simpl.
    rewrite fetch_count_snoc. cbn [is_fetch]. apply Nat.add_0_r. }
  destruct H1 as [Hr1 Hf1].
  destruct (steps_stopped _ _ _ Hsteps Hr1) as [Hr2 Hf2]. split; congruence.
Qed.

(** *** The journal of the worker *)

Lemma snoc_split {A : Type} (l pre post : list A) (a b : A) :
  (l ++ [a] = pre ++ b :: post)%list ->
  (post = [] /\ l = pre /\ a = b)
  \/ exists post', post = (post' ++ [a])%list /\ l = (pre ++ b :: post')%list.
Proof.
  intros H. destruct post as [|p post0].
  - left. apply app_inj_tail in H as [-> ->]. auto.
  - right. assert (Hne : p :: post0 <> []) by discriminate.
    destruct (exists_last Hne) as (post' & a' & E). rewrite E in *. clear E.
    change (pre ++ b :: post' ++ [a'])%list with (pre ++ (b :: post') ++ [a'])%list in H.
    rewrite app_assoc in H. apply app_inj_tail in H as [-> ->]. eauto.
Qed.

Lemma log_after_rows_nil : log_after_rows [].
Proof. intros [|x pre] chunk post H; discriminate H. Qed.

Lemma log_after_rows_other j e :
  log_after_rows j ->
  (forall chunk, e <> WroteLog chunk) ->
  log_after_rows (j ++ [e]).
Proof.
  intros Hj He pre chunk post H.
  apply snoc_split in H as [(_ & _ & ->)|(post' & _ & ->)].
  - now elim (He chunk).
  - exact (Hj pre chunk post' eq_refl).
Qed.

Lemma log_after_rows_block before task rows :
  log_after_rows (before ++ Took task :: map WroteData rows) ->
  page_rows (entries_of task) = Some rows ->
  log_after_rows ((before ++ Took task :: map WroteData rows)
                  ++ [WroteLog (Revision.logMessage task ++ LF)]).
Proof.
  intros Hj Hrows pre chunk post H.
  apply snoc_split in H as [(_ & <- & <-)|(post' & _ & E)].
  - exists before, task, rows. split; [exact Hrows|].
    unfold block. now rewrite <- app_assoc.
  - exact (Hj pre chunk post' E).
Qed.

Lemma page_rows_snoc done entry rows :
  page_rows done = Some rows ->
  page_rows (done ++ [entry])
  = match Revision.entry_row entry with
    | Returned (Some r) => Some (rows ++ [r])%list
    | Returned None => Some rows
    | Thrown _ => None
    end.
Proof.
  revert rows. induction done as [|e done IH]; intros rows H; cbn [page_rows app] in *.
  - injection H as <-. now destruct (Revision.entry_row entry) as [[r|]|].
  - destruct (Revision.entry_row e) as [[r|]|]; try discriminate.
    + destruct (page_rows done) as [rows0|]; [|discriminate].
      injection H as <-. rewrite (IH rows0 eq_refl).
      now destruct (Revision.entry_row entry) as [[r'|]|].
    + destruct (page_rows done) as [rows0|]; [|discriminate].
      injection H as <-. rewrite (IH rows0 eq_refl).
      now destruct (Revision.entry_row entry) as [[r'|]|].
Qed.

Lemma data_writes_snoc j e :
  data_writes (j ++ [e])
  = (data_writes j ++ match e with WroteData chunk => [chunk] | _ => [] end)%list.
Proof. unfold data_writes. rewrite flat_map_app. simpl. now rewrite app_nil_r. Qed.

Lemma log_writes_snoc j e :
  log_writes (j ++ [e])
  = (log_writes j ++ match e with WroteLog chunk => [chunk] | _ => [] end)%list.
Proof. unfold log_writes. rewrite flat_map_app. simpl. now rewrite app_nil_r. Qed.

Lemma quiet_journal_ok st st' : quiet st st' -> journal_ok st -> journal_ok st'.
Proof.
  intros [(Hw & Hj & Hd & Hl) _] (H1 & H2 & H3 & H4).
  unfold journal_ok, in_flight in *. rewrite Hw, Hj, Hd, Hl. auto.
Qed.

Lemma step_journal_ok st ev st' :
  step st ev = Some st' -> journal_ok st -> journal_ok st'.
Proof.
  intros Hstep Hok.
  assert (Hq : forall s, quiet st s -> journal_ok s).
  { intros s H. exact (quiet_journal_ok _ _ H Hok). }
  destruct Hok as (Hlog & Hfl & Hdata & Hlogs).
  destruct ev; unfold Revision.step in Hstep;
    try (destruct (Revision.busy st); [discriminate|]).
  - destruct (Revision.pc st); try discriminate.
    injection Hstep as <-. apply Hq, quiet_on_fetch_done.
  - destruct (Revision.pc st); try discriminate.
    injection Hstep as <-. apply Hq, quiet_on_sleep_done.
  - injection Hstep as <-. apply Hq. quiet_chain.
  - (* Process *)
    destruct (worker st); try discriminate.
    destruct (queue st) as [|task rest]; try discriminate.
    injection Hstep as <-. unfold journal_ok, in_flight. state_simpl.
    rewrite data_writes_snoc, log_writes_snoc, !app_nil_r.
    repeat split; auto.
    + apply log_after_rows_other; [exact Hlog | discriminate].
    + unfold worker_start.
      destruct (negb (typeof (json task) =? "object")%string); [exact I|].
      destruct (get (json task) "entries") as [entries|] eqn:Hget; [|exact I].
      destruct (negb (truthy entries)); [exact I|].
      exists (journal st), task, [], []. unfold entries_of. rewrite Hget. auto.
  - (* Step *)
    unfold in_flight in Hfl.
    destruct (worker st) as [|[|entry rest] message| |]; try discriminate.
    + destruct Hfl as (before & task & done & rows & Hj & -> & Hentries & Hrows).
      rewrite app_nil_r in Hentries.
      destruct (stream_write _ _) as [ls|] eqn:Hwrite; [|discriminate].
      injection Hstep as <-. unfold journal_ok, in_flight. state_simpl.
      rewrite data_writes_snoc, log_writes_snoc, app_nil_r.
      unfold stream_write in Hwrite.
      destruct (phase (Revision.logStream st)); try discriminate.
      injection Hwrite as <-. cbn [chunks]. rewrite Hlogs.
      repeat split; auto.
      * rewrite Hj. apply log_after_rows_block; [now rewrite <- Hj | congruence].
      * now destruct drained.
    + destruct Hfl as (before & task & done & rows & Hj & -> & Hentries & Hrows).
      pose proof (page_rows_snoc done entry rows Hrows) as Hsnoc.
      assert (Hent : entries_of task = ((done ++ [entry]) ++ rest)%list)
        by now rewrite <- app_assoc.
      destruct (Revision.entry_row entry) as [[row|]|].
      * destruct (stream_write _ _) as [ds|] eqn:Hwrite; [|discriminate].
        injection Hstep as <-. unfold journal_ok, in_flight. state_simpl.
        rewrite data_writes_snoc, log_writes_snoc, app_nil_r.
        unfold stream_write in Hwrite.
        destruct (phase (Revision.dataStream st)); try discriminate.
        injection Hwrite as <-. cbn [chunks]. rewrite Hdata.
        repeat split; auto.
        -- apply log_after_rows_other; [exact Hlog | discriminate].
        -- assert (Hj' : (journal st ++ [WroteData row]
                          = before ++ Took task :: map WroteData (rows ++ [row]))%list).
           { rewrite Hj, map_app, <- app_assoc. reflexivity. }
           destruct drained; exists before, task, (done ++ [entry])%list, (rows ++ [row])%list;
             auto.
      * injection Hstep as <-. unfold journal_ok, in_flight. state_simpl.
        repeat split; auto.
        exists before, task, (done ++ [entry])%list, rows. auto.
      * injection Hstep as <-. unfold journal_ok, in_flight. state_simpl. auto.
  - (* DataDrain *)
    unfold in_flight in Hfl.
    destruct (worker st); try discriminate.
    injection Hstep as <-. unfold journal_ok, in_flight. state_simpl. auto.
  - (* LogDrain *)
    destruct (worker st); try discriminate.
    injection Hstep as <-. unfold journal_ok, in_flight. state_simpl. auto.
  - destruct (nth_error _ _) as [[]|]; try discriminate.
    destruct (idle st); [|discriminate].
    injection Hstep as <-. apply Hq. quiet_chain.
  - destruct (nth_error _ _) as [[]|]; try discriminate.
    injection Hstep as <-. apply Hq. quiet_chain.
  - destruct (nth_error _ _) as [[]|]; try discriminate.
    injection Hstep as <-. apply Hq. quiet_chain.
  - destruct (nth_error _ _) as [[]|]; try discriminate.
    injection Hstep as <-. apply Hq. quiet_chain.
  - destruct (Revision.pc st); try discriminate.
    destruct (nth_error _ _) as [[]|]; try discriminate.
    injection Hstep as <-. apply Hq. quiet_chain.
Qed.

Lemma start_journal_ok log :
  journal_ok (Revision.start BASE_URL payload log).
Proof.
  unfold Revision.start. cbv zeta.
  match goal with
  | |- journal_ok (Revision.loop_top _ _ (Revision.emit (if _ then Revision.emit ?s _ else _) _)) =>
      apply (quiet_journal_ok s)
  end.
  - split_ifs; quiet_chain.
  - unfold journal_ok, in_flight. cbn. repeat split; auto using log_after_rows_nil.
Qed.

(** In every run of the revision, each log line the worker has written
    comes right after the task it belongs to and the rows of all the
    entries of that task; and the streams hold what the journal tells. *)
Lemma log_line_after_rows log evs : forall st,
  steps (Revision.start BASE_URL payload log) evs = Some st ->
  log_after_rows (journal st)
  /\ chunks (Revision.dataStream st) = data_writes (journal st)
  /\ chunks (Revision.logStream st) = log_writes (journal st).
Proof.
  assert (H : forall st0 st, journal_ok st0 -> steps st0 evs = Some st -> journal_ok st).
  { induction evs as [|ev evs IH]; intros st0 st Hok Hsteps; cbn [Revision.steps] in Hsteps.
    - now injection Hsteps as <-.
    - destruct (step st0 ev) as [st1|] eqn:Hstep; [|discriminate].
      exact (IH _ _ (step_journal_ok _ _ _ Hstep Hok) Hsteps). }
  intros st Hsteps.
  destruct (H _ _ (start_journal_ok log) Hsteps) as (H1 & _ & H3 & H4). auto.
Qed.



End Stopped.

(** A signal comes while the first request is pending; [teardown] clears
    [running] and, the payload being 1, waits in its [while] loop with both
    streams open.  The request then succeeds and its page is pushed: the
    loop stops there, having started one request in all, and the worker
    writes the rows and the log line of that page. *)
Lemma late_page_is_written :
  exists st,
    Revision.steps (answers first_page) sample_base one_task
      (Revision.start sample_base one_task None)
      [Revision.Signal; Revision.FetchDone ok_response; Process;
       Step true; Step true; Step true]
    = Some st
    /\ fetch_count (Revision.out st) = 1%nat
    /\ running st = false
    /\ phase (Revision.dataStream st) = Open
    /\ phase (Revision.logStream st) = Open
    /\ chunks (Revision.dataStream st) = ["1,10" ++ LF; "2,20" ++ LF]
    /\ chunks (Revision.logStream st)
       = ["t <- Next page token | Got page 1 (null)" ++ LF].
Proof.
  eexists. split; [vm_compute; reflexivity|]. vm_compute. repeat split.
Qed.

Lemma backoff_returns_slowly_example :
  Z.max (Revision.STARTING_BACKOFF + Revision.INCREMENT_BACKOFF
         - Revision.INCREMENT_RETURN_BACKOFF) Revision.STARTING_BACKOFF = 249
  /\ 249 <> Revision.STARTING_BACKOFF.
Proof. split; [reflexivity | discriminate]. Qed.

End RevisionFacts.

(** ** The backoff of both revisions *)

Module Backoff.

Import Download.





End Backoff.

(** ** log.txt as a text: lines, line breaks, what [run] appends *)

Module TextFacts.

Import Download.

Lemma append_empty (s : string) : (s ++ "")%string = s.
Proof.
  induction s as [|c s IH]; simpl; [reflexivity | now rewrite IH].
Qed.

Lemma append_assoc (a b c : string) : ((a ++ b) ++ c)%string = (a ++ b ++ c)%string.
Proof.
  induction a as [|x a IH]; simpl; [reflexivity | now rewrite IH].
Qed.

Lemma occurs_append (c : ascii) (a b : string) :
  occurs c (a ++ b) = occurs c a || occurs c b.
Proof.
  induction a as [|x a IH]; simpl; [reflexivity|].
  rewrite IH. now rewrite orb_assoc.
Qed.

Lemma unbroken_append (a b : string) :
  unbroken a -> unbroken b -> unbroken (a ++ b).
Proof.
  intros [Ha1 Ha2] [Hb1 Hb2]. unfold unbroken.
  now rewrite !occurs_append, Ha1, Ha2, Hb1, Hb2.
Qed.

Lemma unbroken_cons (c : ascii) (s : string) :
  unbroken (String c s)
  <-> (NL =? c)%char = false /\ (CR =? c)%char = false /\ unbroken s.
Proof.
  unfold unbroken. cbn [occurs]. rewrite !orb_false_iff. tauto.
Qed.

Lemma unbroken_empty : unbroken "".
Proof. split; reflexivity. Qed.

(** *** What the program prints holds no line break *)

Lemma unbroken_digits (d : Decimal.uint) : unbroken (NilEmpty.string_of_uint d).
Proof.
  induction d; cbn [NilEmpty.string_of_uint];
    [apply unbroken_empty | apply unbroken_cons; repeat split; try reflexivity; apply IHd ..].
Qed.

Lemma unbroken_uint (d : Decimal.uint) : unbroken (NilZero.string_of_uint d).
Proof.
  unfold NilZero.string_of_uint.
  destruct d; solve [apply unbroken_digits | split; reflexivity].
Qed.

Lemma unbroken_number (n : Z) : unbroken (number_to_string n).
Proof.
  unfold number_to_string, NilZero.string_of_int.
  destruct (Z.to_int n) as [d|d].
  - apply unbroken_uint.
  - apply unbroken_cons. split; [reflexivity|]. split; [reflexivity|].
    apply unbroken_uint.
Qed.

Lemma unbroken_logMessage tok position :
  unbroken (to_string tok) ->
  unbroken (to_string (nextPageToken position)) ->
  unbroken (logMessage tok position).
Proof.
  intros Ht Hp. unfold logMessage.
  repeat apply unbroken_append; auto using unbroken_number; split; reflexivity.
Qed.

(** *** A part of a line holds no line break *)

Lemma occurs_substring (c : ascii) (s : string) : forall n m,
  occurs c s = false -> occurs c (String.substring n m s) = false.
Proof.
  induction s as [|x s IH]; intros n m H.
  - destruct n, m; reflexivity.
  - cbn [occurs] in H. apply orb_false_iff in H. destruct H as [Hx Hs].
    destruct n as [|n]; destruct m as [|m]; cbn [String.substring occurs];
      try reflexivity; rewrite ?Hx; cbn [orb]; now apply IH.
Qed.

Lemma unbroken_substring (a b : Z) (s : string) :
  unbroken s -> unbroken (JS.substring a b s).
Proof.
  intros [H1 H2]. unfold JS.substring. split; now apply occurs_substring.
Qed.

(** The token [getLastPosition] reads off lines without a line break holds
    none. *)
Lemma token_unbroken (lines : list string) : forall acc,
  Forall unbroken lines ->
  unbroken (to_string (nextPageToken (fst acc))) ->
  unbroken (to_string (nextPageToken (fst (fold_left read_line lines acc)))).
Proof.
  induction lines as [|l lines IH]; intros [result i] Hl Hacc; cbn [fold_left].
  - exact Hacc.
  - inversion Hl as [|? ? Hu Hrest]; subst. apply IH; [exact Hrest|].
    unfold read_line. destruct (String.length l =? 0)%nat; [exact Hacc|].
    cbn [fst nextPageToken].
    destruct (JS.substring 0 (indexOf " " l) l =? "null")%string.
    + split; reflexivity.
    + cbn [to_string]. now apply unbroken_substring.
Qed.

Lemma getLastPosition_unbroken (log : option (list string)) :
  Forall unbroken (lines_of log) ->
  unbroken (to_string (nextPageToken (getLastPosition log))).
Proof.
  intros H. destruct log as [lines|]; [|split; reflexivity].
  unfold getLastPosition. apply token_unbroken; [exact H | split; reflexivity].
Qed.

(** *** The lines of a text *)

Lemma lines_from_unbroken (text : string) : forall after_cr line,
  unbroken line -> Forall unbroken (lines_from after_cr line text).
Proof.
  induction text as [|c text IH]; intros after_cr line Hline; cbn [lines_from].
  - destruct (line =? "")%string;
      [constructor | constructor; [exact Hline | constructor]].
  - destruct (NL =? c)%char eqn:Hnl.
    + destruct after_cr; [|constructor; [exact Hline|]];
        apply IH, unbroken_empty.
    + destruct (CR =? c)%char eqn:Hcr.
      * constructor; [exact Hline | apply IH, unbroken_empty].
      * apply IH, unbroken_append; [exact Hline|].
        apply unbroken_cons. auto using unbroken_empty.
Qed.

Lemma readLines_unbroken (text : string) : Forall unbroken (readLines text).
Proof. apply lines_from_unbroken, unbroken_empty. Qed.

(** What follows a line feed is read as a text of its own. *)
Lemma lines_from_after_feed (before : string) : forall after_cr line rest,
  lines_from after_cr line (before ++ String NL rest)
  = (lines_from after_cr line (before ++ String NL "")
     ++ lines_from false "" rest)%list.
Proof.
  induction before as [|c before IH]; intros after_cr line rest; cbn [String.append lines_from].
  - rewrite Ascii.eqb_refl. destruct after_cr; cbn [lines_from String.eqb]; reflexivity.
  - destruct (NL =? c)%char.
    + destruct after_cr; [apply IH | cbn [app]; f_equal; apply IH].
    + destruct (CR =? c)%char; [cbn [app]; f_equal; apply IH | apply IH].
Qed.

(** A message without a line break, followed by a line feed, is one line. *)
Lemma lines_from_message (m : string) : forall line rest,
  unbroken m ->
  lines_from false line (m ++ String NL rest)
  = (line ++ m)%string :: lines_from false "" rest.
Proof.
  induction m as [|c m IH]; intros line rest Hm; cbn [String.append lines_from].
  - now rewrite Ascii.eqb_refl, append_empty.
  - apply unbroken_cons in Hm. destruct Hm as (Hnl & Hcr & Hm).
    rewrite Hnl, Hcr, IH by exact Hm.
    now rewrite append_assoc.
Qed.

Lemma readLines_message (text m : string) :
  terminated text -> unbroken m ->
  readLines (text ++ log_line m) = (readLines text ++ [m])%list.
Proof.
  intros Ht Hm. unfold readLines, log_line, LF.
  change (ascii_of_nat 10) with NL.
  destruct Ht as [-> | [before ->]].
  - cbn [String.append]. rewrite lines_from_message by exact Hm. reflexivity.
  - unfold LF. change (ascii_of_nat 10) with NL.
    rewrite append_assoc. cbn [String.append].
    rewrite lines_from_after_feed, (lines_from_message m) by exact Hm. reflexivity.
Qed.

Lemma terminated_message (text m : string) : terminated (text ++ log_line m).
Proof.
  right. exists (text ++ m)%string. unfold log_line. now rewrite append_assoc.
Qed.

(** The lines of a log to which messages were appended, each with its line
    feed. *)
Lemma readLines_appended (msgs : list string) : forall text,
  terminated text -> Forall unbroken msgs ->
  readLines (appended text (map log_line msgs)) = (readLines text ++ msgs)%list.
Proof.
  induction msgs as [|m msgs IH]; intros text Ht Hm; cbn [map appended].
  - now rewrite app_nil_r.
  - inversion Hm as [|? ? Hm1 Hm2]; subst.
    rewrite IH by (auto using terminated_message).
    rewrite readLines_message by assumption.
    now rewrite <- app_assoc.
Qed.

Lemma readLines_log_text (file : option string) (outs : list Out) :
  terminated (file_text file) ->
  Forall unbroken (pushed_messages outs) ->
  readLines (log_text file outs)
  = (lines_of (file_lines file) ++ pushed_messages outs)%list.
Proof.
  intros Ht Hm. unfold log_text. rewrite readLines_appended by assumption.
  destruct file; reflexivity.
Qed.

Lemma file_lines_unbroken (file : option string) :
  Forall unbroken (lines_of (file_lines file)).
Proof.
  destruct file as [text|]; [apply readLines_unbroken | constructor].
Qed.

End TextFacts.

(** ** download.ts: what every run keeps *)

Module RunFacts.

Import Download.

Lemma still_same st st' :
  position st' = position st -> pc st' = pc st ->
  taskQueue st' = taskQueue st -> taskWorker st' = taskWorker st ->
  logQueue st' = logQueue st -> logWorker st' = logWorker st ->
  chunks (dataStream st') = chunks (dataStream st) ->
  chunks (logStream st') = chunks (logStream st) ->
  out st' = out st -> still st st'.
Proof.
  intros. unfold still. repeat split; auto. exists []. simpl. now rewrite app_nil_r.
Qed.

Lemma chunks_end (s : WriteStream) : chunks (stream_end s) = chunks s.
Proof. unfold stream_end. now destruct (phase s). Qed.

Lemma still_close st : still st (fst (teardown_close st)).
Proof.
  unfold teardown_close.
  match goal with |- context [if ?c then _ else _] => destruct c end; cbn [fst].
  - unfold still. repeat split.
    exists ["Finished writing"; "Closed write streams"].
    cbn [out emit]. now rewrite <- app_assoc.
  - unfold still. cbn [position pc taskQueue taskWorker logQueue logWorker dataStream
                       logStream out set_dataStream emit].
    rewrite chunks_end. repeat split. now exists ["Finished writing"].
Qed.

Lemma still_logs st : still st (fst (teardown_logs st)).
Proof.
  unfold teardown_logs. destruct (negb (log_idle st)).
  - now apply still_same.
  - apply still_close.
Qed.

Lemma still_teardown st : still st (fst (teardown st)).
Proof.
  unfold teardown. destruct (negb (task_idle st)).
  - now apply still_same.
  - apply still_logs.
Qed.

Lemma still_set_teardowns st st' tds :
  still st st' -> still st (set_teardowns st' tds).
Proof. intros H. exact H. Qed.

Lemma still_call_teardown st : still st (call_teardown st).
Proof.
  unfold call_teardown. pose proof (still_teardown st) as H.
  destruct (teardown st) as [st1 td]. exact H.
Qed.

Lemma still_resume st i body :
  (forall s, still s (fst (body s))) -> still st (resume_teardown st i body).
Proof.
  intros Hb. unfold resume_teardown. pose proof (Hb st) as H.
  destruct (body st) as [st1 td]. exact H.
Qed.

Lemma pushed_messages_snoc outs o :
  pushed_messages (outs ++ [o])
  = (pushed_messages outs ++ match o with Pushed _ m => [m] | _ => [] end)%list.
Proof. unfold pushed_messages. rewrite flat_map_app. simpl. now rewrite app_nil_r. Qed.

Lemma pushed_pages_snoc outs o :
  pushed_pages (outs ++ [o])
  = (pushed_pages outs ++ match o with Pushed j _ => [j] | _ => [] end)%list.
Proof. unfold pushed_pages. rewrite flat_map_app. simpl. now rewrite app_nil_r. Qed.

Lemma pushed_consoles outs msgs :
  pushed_messages (outs ++ map Console msgs) = pushed_messages outs
  /\ pushed_pages (outs ++ map Console msgs) = pushed_pages outs.
Proof.
  induction msgs as [|m msgs [IH1 IH2]] using rev_ind.
  - simpl. now rewrite app_nil_r.
  - rewrite map_app, app_assoc. simpl map.
    rewrite pushed_messages_snoc, pushed_pages_snoc, IH1, IH2, !app_nil_r. auto.
Qed.

Lemma still_pipeline_ok st st' : still st st' -> pipeline_ok st -> pipeline_ok st'.
Proof.
  intros (_ & _ & Htq & Htw & Hlq & Hlw & Hd & Hl & msgs & Ho) [H1 H2].
  destruct (pushed_consoles (out st) msgs) as [Em Ep].
  unfold pipeline_ok. rewrite Htq, Htw, Hlq, Hd, Hl, Ho, Em, Ep. auto.
Qed.

Lemma pipeline_ok_emit st o :
  (forall j m, o <> Pushed j m) -> pipeline_ok st -> pipeline_ok (emit st o).
Proof.
  intros Ho [H1 H2]. unfold pipeline_ok.
  cbn [out emit logStream logQueue dataStream taskWorker taskQueue].
  rewrite pushed_messages_snoc, pushed_pages_snoc.
  destruct o; try (now rewrite !app_nil_r). now elim (Ho json message).
Qed.

Lemma pipeline_ok_set_loop st p b c : pipeline_ok st -> pipeline_ok (set_loop st p b c).
Proof. intros H. exact H. Qed.

Lemma pipeline_ok_push st json message :
  pipeline_ok st ->
  pipeline_ok
    (emit (set_log (set_task st (taskQueue st ++ [json]) (taskWorker st))
                   (logQueue st ++ [message]) (logWorker st))
          (Pushed json message)).
Proof.
  intros [H1 H2]. unfold pipeline_ok.
  cbn [out emit set_log set_task logStream logQueue dataStream taskWorker taskQueue].
  rewrite pushed_messages_snoc, pushed_pages_snoc, !map_app, !flat_map_app.
  rewrite <- H1, <- H2. cbn [map flat_map]. rewrite !app_nil_r, <- !app_assoc. auto.
Qed.

Section Pipeline.

Variable JSON_parse : string -> option value.
Variable BASE_URL : string.

Lemma on_fetch_done_pipeline_ok st net :
  pipeline_ok st -> pipeline_ok (on_fetch_done JSON_parse BASE_URL st net).
Proof.
  intros Hok.
  destruct (downloadPage JSON_parse (position st) BASE_URL net) as [json|e] eqn:H.
  - rewrite (Loop.on_fetch_done_returned _ _ _ _ _ H). cbv zeta.
    set (message := logMessage (next_token json) (position st)).
    pose proof (pipeline_ok_push st json message Hok) as H3.
    match goal with
    | |- context [if ?c then emit ?s ?o else ?s] =>
        assert (H4 : pipeline_ok (if c then emit s o else s))
          by (destruct c; [apply pipeline_ok_emit; [discriminate | exact H3] | exact H3]);
        set (st4 := if c then emit s o else s) in *
    end.
    destruct (negb (truthy (next_token json))).
    + apply pipeline_ok_set_loop.
      apply (still_pipeline_ok (emit st4 (Console "No next page, finished download!"))).
      * apply still_call_teardown.
      * apply pipeline_ok_emit; [discriminate | exact H4].
    + unfold loop_top. apply pipeline_ok_set_loop.
      apply pipeline_ok_emit; [discriminate|]. now apply pipeline_ok_set_loop.
  - assert (E : on_fetch_done JSON_parse BASE_URL st net
                = set_loop (emit (emit st (Console (backing_off (backoff st))))
                                 (Slept (backoff st)))
                           (position st) (backoff st) AwaitSleep).
    { unfold on_fetch_done. rewrite H. reflexivity. }
    rewrite E. apply pipeline_ok_set_loop.
    apply pipeline_ok_emit; [discriminate|].
    apply pipeline_ok_emit; [discriminate | exact Hok].
Qed.

Lemma step_pipeline_ok st ev st' :
  step JSON_parse BASE_URL st ev = Some st' -> pipeline_ok st -> pipeline_ok st'.
Proof.
  intros Hstep Hok.
  assert (Hs : forall s, still st s -> pipeline_ok s).
  { intros s H. exact (still_pipeline_ok _ _ H Hok). }
  destruct ev; unfold step in Hstep;
    try (destruct (busy st); [discriminate|]).
  - destruct (pc st); try discriminate.
    injection Hstep as <-. now apply on_fetch_done_pipeline_ok.
  - destruct (pc st); try discriminate. injection Hstep as <-.
    unfold on_sleep_done, loop_top. apply pipeline_ok_set_loop.
    apply pipeline_ok_emit; [discriminate|]. now apply pipeline_ok_set_loop.
  - injection Hstep as <-.
    apply (still_pipeline_ok (emit st SignalReceived)); [apply still_call_teardown|].
    apply pipeline_ok_emit; [discriminate | exact Hok].
  - (* TaskProcess *)
    destruct (taskWorker st) eqn:Hw; try discriminate.
    destruct (taskQueue st) as [|json queue] eqn:Hq; try discriminate.
    injection Hstep as <-. destruct Hok as [H1 H2]. split; [exact H1|].
    rewrite Hw, Hq in H2. cbn [rows_to_come flat_map app] in H2.
    cbn [dataStream taskWorker taskQueue out set_task]. rewrite <- H2.
    reflexivity.
  - (* TaskStep *)
    destruct Hok as [H1 H2].
    destruct (taskWorker st) as [|[|entry rest]|] eqn:Hw; try discriminate.
    + injection Hstep as <-. split; [exact H1|]. exact H2.
    + cbn [rows_to_come task_rows] in H2.
      destruct (entry_row entry) as [[row|]|].
      * destruct (stream_write _ _) as [ds|] eqn:Hwrite; [|discriminate].
        injection Hstep as <-. split; [exact H1|].
        unfold stream_write in Hwrite.
        destruct (phase (dataStream st)); try discriminate.
        injection Hwrite as <-.
        cbn [dataStream taskWorker taskQueue out set_task set_dataStream chunks].
        rewrite <- H2, <- app_assoc. now destruct drained.
      * injection Hstep as <-. split; [exact H1|]. exact H2.
      * injection Hstep as <-. split; [exact H1|]. exact H2.
  - (* DataDrain *)
    destruct Hok as [H1 H2].
    destruct (taskWorker st) eqn:Hw; try discriminate.
    injection Hstep as <-. split; [exact H1|]. exact H2.
  - (* LogProcess *)
    destruct Hok as [H1 H2].
    destruct (logWorker st); try discriminate.
    destruct (logQueue st) as [|message queue] eqn:Hq; try discriminate.
    destruct (stream_write _ _) as [ls|] eqn:Hwrite; [|discriminate].
    injection Hstep as <-. split; [|exact H2].
    unfold stream_write in Hwrite.
    destruct (phase (logStream st)); try discriminate.
    injection Hwrite as <-.
    cbn [logStream logQueue out set_log set_logStream chunks].
    rewrite <- H1, <- app_assoc. reflexivity.
  - destruct (logWorker st); try discriminate.
    injection Hstep as <-. exact Hok.
  - destruct (nth_error _ _) as [[]|]; try discriminate.
    destruct (task_idle st); [|discriminate].
    injection Hstep as <-. apply Hs, still_resume, still_logs.
  - destruct (nth_error _ _) as [[]|]; try discriminate.
    destruct (log_idle st); [|discriminate].
    injection Hstep as <-. apply Hs, still_resume, still_close.
  - destruct (nth_error _ _) as [[]|]; try discriminate.
    injection Hstep as <-. destruct Hok as [H1 H2]. split.
    + cbn [logStream logQueue out set_teardowns set_logStream set_dataStream].
      now rewrite chunks_end.
    + exact H2.
  - destruct (nth_error _ _) as [[]|]; try discriminate.
    injection Hstep as <-.
    apply (pipeline_ok_emit (set_logStream st (stream_finish (logStream st))));
      [discriminate | exact Hok].
  - destruct (pc st); try discriminate.
    destruct (nth_error _ _) as [[]|]; try discriminate.
    injection Hstep as <-. apply pipeline_ok_set_loop.
    apply pipeline_ok_emit; [discriminate | exact Hok].
Qed.

Lemma start_pipeline_ok log : pipeline_ok (start BASE_URL log).
Proof.
  unfold start, loop_top. cbv zeta. apply pipeline_ok_set_loop.
  apply pipeline_ok_emit; [discriminate|].
  apply pipeline_ok_emit; [discriminate|].
  destruct (negb _).
  - apply pipeline_ok_emit; [discriminate|]. split; reflexivity.
  - split; reflexivity.
Qed.

Lemma run_pipeline_ok log evs : forall st,
  steps JSON_parse BASE_URL (start BASE_URL log) evs = Some st -> pipeline_ok st.
Proof.
  assert (H : forall st0 st, pipeline_ok st0 ->
                steps JSON_parse BASE_URL st0 evs = Some st -> pipeline_ok st).
  { induction evs as [|ev evs IH]; intros st0 st Hok Hsteps; cbn [steps] in Hsteps.
    - now injection Hsteps as <-.
    - destruct (step JSON_parse BASE_URL st0 ev) as [st1|] eqn:Hstep; [|discriminate].
      exact (IH _ _ (step_pipeline_ok _ _ _ Hstep Hok) Hsteps). }
  intros st. apply H, start_pipeline_ok.
Qed.

(** What is neither an answer of the network nor the end of a sleep leaves
    the loop alone, pushes nothing, and at most takes the head of the task
    queue. *)
Lemma step_other st ev st' :
  step JSON_parse BASE_URL st ev = Some st' ->
  (forall net, ev <> FetchDone net) ->
  ev <> SleepDone ->
  position st' = position st
  /\ looping st' = looping st
  /\ pushed_messages (out st') = pushed_messages (out st)
  /\ pushed_pages (out st') = pushed_pages (out st)
  /\ (taskQueue st' = taskQueue st \/ exists json, taskQueue st = json :: taskQueue st').
Proof.
  intros Hstep Hf Hsl.
  assert (Hs : forall s, still st s ->
             position s = position st /\ looping s = looping st
             /\ pushed_messages (out s) = pushed_messages (out st)
             /\ pushed_pages (out s) = pushed_pages (out st)
             /\ (taskQueue s = taskQueue st \/ exists json, taskQueue st = json :: taskQueue s)).
  { intros s (Hp & Hpc & Htq & _ & _ & _ & _ & _ & msgs & Ho).
    destruct (pushed_consoles (out st) msgs) as [Em Ep].
    unfold looping. rewrite Hp, Hpc, Ho, Em, Ep, Htq. auto 10. }
  destruct ev; unfold step in Hstep;
    try (destruct (busy st); [discriminate|]).
  - now elim (Hf net).
  - now elim Hsl.
  - injection Hstep as <-.
    destruct (still_call_teardown (emit st SignalReceived))
      as (Hp & Hpc & Htq & _ & _ & _ & _ & _ & msgs & Ho).
    destruct (pushed_consoles (out (emit st SignalReceived)) msgs) as [Em Ep].
    unfold looping. rewrite Hp, Hpc, Ho, Em, Ep, Htq.
    cbn [position pc out taskQueue emit].
    rewrite pushed_messages_snoc, pushed_pages_snoc, !app_nil_r. auto 10.
  - destruct (taskWorker st); try discriminate.
    destruct (taskQueue st) as [|json queue]; try discriminate.
    injection Hstep as <-. cbn [position pc out taskQueue set_task looping].
    unfold looping. repeat split; eauto.
  - destruct (taskWorker st) as [|[|entry rest]|]; try discriminate.
    + injection Hstep as <-. unfold looping.
      cbn [position pc out taskQueue set_task]. auto 10.
    + destruct (entry_row entry) as [[row|]|];
        [destruct (stream_write _ _) as [ds|] eqn:Hwrite; [|discriminate]| |];
        injection Hstep as <-; unfold looping;
        cbn [position pc out taskQueue set_task set_dataStream]; auto 10.
  - destruct (taskWorker st); try discriminate.
    injection Hstep as <-. unfold looping.
    cbn [position pc out taskQueue set_task]. auto 10.
  - destruct (logWorker st); try discriminate.
    destruct (logQueue st); try discriminate.
    destruct (stream_write _ _); [|discriminate].
    injection Hstep as <-. unfold looping.
    cbn [position pc out taskQueue set_log set_logStream]. auto 10.
  - destruct (logWorker st); try discriminate.
    injection Hstep as <-. unfold looping.
    cbn [position pc out taskQueue set_log]. auto 10.
  - destruct (nth_error _ _) as [[]|]; try discriminate.
    destruct (task_idle st); [|discriminate].
    injection Hstep as <-. apply Hs, still_resume, still_logs.
  - destruct (nth_error _ _) as [[]|]; try discriminate.
    destruct (log_idle st); [|discriminate].
    injection Hstep as <-. apply Hs, still_resume, still_close.
  - destruct (nth_error _ _) as [[]|]; try discriminate.
    injection Hstep as <-. unfold looping.
    cbn [position pc out taskQueue set_teardowns set_logStream set_dataStream]. auto 10.
  - destruct (nth_error _ _) as [[]|]; try discriminate.
    injection Hstep as <-. unfold looping.
    cbn [position pc out taskQueue set_teardowns set_logStream emit].
    rewrite pushed_messages_snoc, pushed_pages_snoc, !app_nil_r. auto 10.
  - destruct (pc st) eqn:Hpc; try discriminate.
    destruct (nth_error _ _) as [[]|]; try discriminate.
    injection Hstep as <-. unfold looping. rewrite Hpc.
    cbn [position pc out taskQueue set_loop emit].
    rewrite pushed_messages_snoc, pushed_pages_snoc, !app_nil_r. auto 10.
Qed.

Lemma pushes_length outs : pushes outs = List.length (pushed_messages outs).
Proof.
  unfold pushes, pushed_messages.
  induction outs as [|o outs IH]; [reflexivity|].
  cbn [filter flat_map]. rewrite length_app, <- IH. now destruct o.
Qed.

(** What an answer of the network does to the loop. *)
Lemma on_fetch_done_cases st net :
  let st' := on_fetch_done JSON_parse BASE_URL st net in
  (exists e,
     downloadPage JSON_parse (position st) BASE_URL net = Thrown e
     /\ position st' = position st /\ pc st' = AwaitSleep
     /\ pushed_messages (out st') = pushed_messages (out st)
     /\ pushed_pages (out st') = pushed_pages (out st)
     /\ taskQueue st' = taskQueue st)
  \/ (exists json,
        downloadPage JSON_parse (position st) BASE_URL net = Returned json
        /\ pushed_messages (out st')
           = (pushed_messages (out st)
              ++ [logMessage (next_token json) (position st)])%list
        /\ pushed_pages (out st') = (pushed_pages (out st) ++ [json])%list
        /\ taskQueue st' = (taskQueue st ++ [json])%list
        /\ ((truthy (next_token json) = true
             /\ pc st' = AwaitFetch
             /\ position st' = mkPosition (next_token json) (page (position st) + 1))
            \/ (truthy (next_token json) = false
                /\ (exists i, pc st' = AwaitTeardown i)
                /\ position st' = position st))).
Proof.
  intros st'. unfold st'.
  destruct (downloadPage JSON_parse (position st) BASE_URL net) as [json|e] eqn:H.
  - right. exists json. split; [reflexivity|].
    rewrite (Loop.on_fetch_done_returned _ _ _ _ _ H). cbv zeta.
    set (message := logMessage (next_token json) (position st)).
    match goal with
    | |- context [if _ then emit ?s _ else ?s] => set (st3 := s)
    end.
    match goal with
    | |- context [if ?c then emit st3 ?o else st3] =>
        set (st4 := if c then emit st3 o else st3)
    end.
    assert (H3 : position st3 = position st
                 /\ taskQueue st3 = (taskQueue st ++ [json])%list
                 /\ pushed_messages (out st3) = (pushed_messages (out st) ++ [message])%list
                 /\ pushed_pages (out st3) = (pushed_pages (out st) ++ [json])%list).
    { unfold st3. cbn [position taskQueue out emit set_log set_task].
      now rewrite pushed_messages_snoc, pushed_pages_snoc. }
    clearbody st3.
    assert (H4 : position st4 = position st
                 /\ taskQueue st4 = (taskQueue st ++ [json])%list
                 /\ pushed_messages (out st4) = (pushed_messages (out st) ++ [message])%list
                 /\ pushed_pages (out st4) = (pushed_pages (out st) ++ [json])%list).
    { destruct H3 as (Hpos & Hq & Hm & Hp). unfold st4.
      match goal with |- context [if ?c then _ else _] => destruct c end.
      - cbn [position taskQueue out emit].
        rewrite pushed_messages_snoc, pushed_pages_snoc, Hm, Hp, !app_nil_r.
        repeat split; assumption.
      - repeat split; assumption. }
    clearbody st4. clear H3.
    destruct H4 as (Hpos & Hq & Hm & Hp).
    destruct (truthy (next_token json)); cbn [negb].
    + unfold loop_top. cbn [position pc out taskQueue set_loop emit].
      rewrite pushed_messages_snoc, pushed_pages_snoc, !app_nil_r, Hpos.
      repeat split; auto.
    + destruct (still_call_teardown (emit st4 (Console "No next page, finished download!")))
        as (Hp' & _ & Htq & _ & _ & _ & _ & _ & msgs & Ho).
      destruct (pushed_consoles
                  (out (emit st4 (Console "No next page, finished download!"))) msgs)
        as [Em Ep].
      cbn [position pc out taskQueue set_loop].
      rewrite Ho, Em, Ep, Htq, Hp'. cbn [position out taskQueue emit].
      rewrite pushed_messages_snoc, pushed_pages_snoc, !app_nil_r.
      repeat split; auto. right. repeat split; eauto.
  - left. exists e. split; [reflexivity|].
    assert (E : on_fetch_done JSON_parse BASE_URL st net
                = set_loop (emit (emit st (Console (backing_off (backoff st))))
                                 (Slept (backoff st)))
                           (position st) (backoff st) AwaitSleep).
    { unfold on_fetch_done. rewrite H. reflexivity. }
    rewrite E. cbn [position pc out taskQueue set_loop emit].
    rewrite !pushed_messages_snoc, !pushed_pages_snoc, !app_nil_r. repeat split.
Qed.

End Pipeline.

(** *** The log line of a page, read back *)

Lemma fold_counter_page lines : forall r i,
  i = page r + 1 ->
  snd (fold_left read_line lines (r, i))
  = page (fst (fold_left read_line lines (r, i))) + 1.
Proof.
  induction lines as [|l lines IH]; intros r i Hi; cbn [fold_left].
  - exact Hi.
  - unfold read_line at 2 4. destruct (String.length l =? 0)%nat.
    + now apply IH.
    + now apply IH.
Qed.

Lemma getLastPosition_snoc lines m :
  nonempty m = true ->
  getLastPosition (Some (lines ++ [m])%list)
  = mkPosition (decode (JS.substring 0 (indexOf " " m) m))
               (page (getLastPosition (Some lines)) + 1).
Proof.
  intros Hm. unfold getLastPosition. rewrite fold_left_app.
  pose proof (fold_counter_page lines (mkPosition Null 1) 2 eq_refl) as Hc.
  destruct (fold_left read_line lines _) as [r i]. cbn [fst snd] in *.
  cbn [fold_left]. unfold read_line. unfold nonempty in Hm.
  destruct (String.length m =? 0)%nat; [discriminate|].
  cbn [fst]. unfold decode. now rewrite Hc.
Qed.

Lemma logMessage_shape tok position :
  logMessage tok position
  = to_string tok
    ++ String space ("<- Next page token | Got page "
                     ++ number_to_string (page position)
                     ++ " (" ++ to_string (nextPageToken position) ++ ")").
Proof. reflexivity. Qed.

Lemma logMessage_token tok position :
  occurs space (to_string tok) = false ->
  JS.substring 0 (indexOf " " (logMessage tok position)) (logMessage tok position)
  = to_string tok.
Proof.
  intros H. rewrite logMessage_shape. now apply StringFacts.before_first_space.
Qed.

Lemma logMessage_nonempty tok position : nonempty (logMessage tok position) = true.
Proof. rewrite logMessage_shape. apply Recovery.nonempty_with_space. Qed.

Lemma getLastPosition_absent : getLastPosition None = getLastPosition (Some []).
Proof. reflexivity. Qed.

Section Cursor.

Variable JSON_parse : string -> option value.
Variable BASE_URL : string.

Lemma downloadPage_parsed position net json :
  downloadPage JSON_parse position BASE_URL net = Returned json ->
  exists body, JSON_parse body = Some json.
Proof.
  destruct net as [reason|[s sText [body|]]]; simpl; try discriminate.
  rewrite Fetcher.status_test_never.
  destruct (s =? 429); [discriminate|].
  destruct (JSON_parse body) as [j|] eqn:Hp; [|discriminate].
  destruct (get j "entries") as [entries|]; [|discriminate].
  destruct (truthy entries); [|discriminate].
  intros [= <-]. eauto.
Qed.

Lemma looping_start log : looping (start BASE_URL log) = true.
Proof. unfold start, loop_top, looping. cbv zeta. reflexivity. Qed.

Lemma start_pushed log :
  pushed_messages (out (start BASE_URL log)) = []
  /\ position (start BASE_URL log) = getLastPosition log
  /\ taskQueue (start BASE_URL log) = [].
Proof.
  unfold start, loop_top. cbv zeta. cbn [position taskQueue out set_loop emit].
  rewrite !pushed_messages_snoc, !app_nil_r.
  destruct (negb _); cbn [position taskQueue out emit];
    rewrite ?pushed_messages_snoc; auto.
Qed.

Lemma step_cursor_ok log st ev st' :
  tidy_pages JSON_parse ->
  step JSON_parse BASE_URL st ev = Some st' ->
  cursor_ok log st -> cursor_ok log st'.
Proof.
  intros Htidy Hstep Hok.
  destruct ev;
    try (destruct (step_other _ _ _ _ _ Hstep) as (Hp & Hl & Hm & _);
         [discriminate | discriminate |];
         unfold cursor_ok, log_after in *; rewrite Hp, Hl, Hm; exact Hok).
  - (* FetchDone *)
    unfold step in Hstep. destruct (busy st); [discriminate|].
    destruct (pc st) eqn:Hpc; try discriminate. injection Hstep as <-.
    assert (Hloop : looping st = true) by (unfold looping; now rewrite Hpc).
    specialize (Hok Hloop).
    destruct (on_fetch_done_cases JSON_parse BASE_URL st net)
      as [(e & _ & Hp & Hpc' & Hm & _)|(json & Hd & Hm & _ & _ & Hnext)].
    + unfold cursor_ok, log_after. rewrite Hp, Hm. intros _. exact Hok.
    + destruct Hnext as [(Ht & Hpc' & Hp)|(Ht & (i & Hpc') & _)].
      * destruct (downloadPage_parsed _ _ _ Hd) as [body Hbody].
        destruct (Htidy _ _ Hbody) as [Hf|(s & Hs & Hne & Hsp & Hnull & _)];
          [congruence|].
        unfold cursor_ok, log_after. intros _. rewrite Hp, Hm, app_assoc.
        rewrite getLastPosition_snoc by apply logMessage_nonempty.
        unfold log_after in Hok. rewrite <- Hok.
        rewrite logMessage_token by (rewrite Hs; exact Hsp).
        rewrite Hs. cbn [to_string]. unfold decode.
        apply String.eqb_neq in Hnull. now rewrite Hnull.
      * unfold cursor_ok, looping. rewrite Hpc'. discriminate.
  - (* SleepDone *)
    unfold step in Hstep. destruct (busy st); [discriminate|].
    destruct (pc st) eqn:Hpc; try discriminate. injection Hstep as <-.
    assert (Hloop : looping st = true) by (unfold looping; now rewrite Hpc).
    specialize (Hok Hloop). unfold cursor_ok, log_after in *. intros _.
    unfold on_sleep_done, loop_top. cbn [position out set_loop emit].
    now rewrite pushed_messages_snoc, app_nil_r.
Qed.

Lemma start_cursor_ok log : cursor_ok log (start BASE_URL log).
Proof.
  destruct (start_pushed log) as (Hm & Hp & _).
  unfold cursor_ok, log_after. intros _. rewrite Hm, Hp, app_nil_r.
  now destruct log.
Qed.

Lemma step_page_ok log st ev st' :
  step JSON_parse BASE_URL st ev = Some st' ->
  page_ok log st -> page_ok log st'.
Proof.
  intros Hstep Hok. unfold page_ok in *. rewrite !pushes_length in *.
  destruct ev;
    try (destruct (step_other _ _ _ _ _ Hstep) as (Hp & Hl & Hm & _);
         [discriminate | discriminate |];
         rewrite Hp, Hl, Hm; exact Hok).
  - unfold step in Hstep. destruct (busy st); [discriminate|].
    destruct (pc st) eqn:Hpc; try discriminate. injection Hstep as <-.
    assert (Hloop : looping st = true) by (unfold looping; now rewrite Hpc).
    rewrite Hloop in Hok.
    destruct (on_fetch_done_cases JSON_parse BASE_URL st net)
      as [(e & _ & Hp & Hpc' & Hm & _)|(json & Hd & Hm & _ & _ & Hnext)].
    + unfold looping. rewrite Hp, Hm, Hpc'. exact Hok.
    + rewrite Hm, length_app. cbn [List.length].
      destruct Hnext as [(Ht & Hpc' & Hp)|(Ht & (i & Hpc') & Hp)];
        unfold looping; rewrite Hp, Hpc'; cbn [page]; lia.
  - unfold step in Hstep. destruct (busy st); [discriminate|].
    destruct (pc st) eqn:Hpc; try discriminate. injection Hstep as <-.
    assert (Hloop : looping st = true) by (unfold looping; now rewrite Hpc).
    rewrite Hloop in Hok.
    unfold on_sleep_done, loop_top, looping. cbn [position pc out set_loop emit].
    now rewrite pushed_messages_snoc, app_nil_r.
Qed.

Lemma start_page_ok log : page_ok log (start BASE_URL log).
Proof.
  destruct (start_pushed log) as (Hm & Hp & _).
  unfold page_ok. rewrite pushes_length, Hm, Hp, looping_start. simpl. lia.
Qed.

Lemma walkable_returned position net json :
  downloadPage JSON_parse position BASE_URL net = Returned json -> walkable json.
Proof.
  intros H.
  destruct (Loop.returned_page_has_entries _ _ _ _ _ H) as (Hj & entries & Hget & He).
  exists entries. repeat split; auto.
  unfold task_start. rewrite Hget, He.
  destruct json; simpl in Hget; try discriminate; try reflexivity;
    injection Hget as <-; discriminate He.
Qed.

Lemma step_walkable st ev st' :
  step JSON_parse BASE_URL st ev = Some st' ->
  Forall walkable (taskQueue st) -> Forall walkable (taskQueue st').
Proof.
  intros Hstep Hok.
  destruct ev;
    try (destruct (step_other _ _ _ _ _ Hstep) as (_ & _ & _ & _ & [Hq|(j & Hq)]);
         [discriminate | discriminate | now rewrite Hq |];
         rewrite Hq in Hok; now inversion Hok).
  - unfold step in Hstep. destruct (busy st); [discriminate|].
    destruct (pc st); try discriminate. injection Hstep as <-.
    destruct (on_fetch_done_cases JSON_parse BASE_URL st net)
      as [(e & _ & _ & _ & _ & _ & Hq)|(json & Hd & _ & _ & Hq & _)].
    + now rewrite Hq.
    + rewrite Hq. apply Forall_app. split; [exact Hok|].
      constructor; [|constructor]. exact (walkable_returned _ _ _ Hd).
  - unfold step in Hstep. destruct (busy st); [discriminate|].
    destruct (pc st); try discriminate. injection Hstep as <-. exact Hok.
Qed.

(** An invariant of the steps that holds at the start holds all along. *)
Lemma run_invariant (P : State -> Prop) log :
  P (start BASE_URL log) ->
  (forall st ev st', step JSON_parse BASE_URL st ev = Some st' -> P st -> P st') ->
  forall evs st,
    steps JSON_parse BASE_URL (start BASE_URL log) evs = Some st -> P st.
Proof.
  intros H0 Hstep evs. generalize (start BASE_URL log) H0.
  induction evs as [|ev evs IH]; intros st0 Hst0 st Hsteps; cbn [steps] in Hsteps.
  - now injection Hsteps as <-.
  - destruct (step JSON_parse BASE_URL st0 ev) as [st1|] eqn:E; [|discriminate].
    exact (IH _ (Hstep _ _ _ E Hst0) _ Hsteps).
Qed.

(** *** Runs without a signal *)

Lemma replace_single (td td' : Teardown) i :
  nth_error [td] i = Some td -> replace i td' [td] = [td'].
Proof. destruct i as [|[|i]]; simpl; intros; congruence. Qed.

Lemma nth_single (td x : Teardown) i : nth_error [td] i = Some x -> i = 0%nat /\ x = td.
Proof. destruct i as [|[|i]]; simpl; intros H; try discriminate; split; congruence. Qed.

Lemma orderly_fetch_done st net :
  pc st = AwaitFetch -> orderly st ->
  orderly (on_fetch_done JSON_parse BASE_URL st net).
Proof.
  intros Hpc Hok. unfold orderly in Hok.
  destruct (teardowns st) as [|td [|td' tds]] eqn:Htd; try contradiction.
  2:{ destruct Hok as [[H|H] _]; congruence. }
  destruct Hok as (_ & Hd & Hl).
  destruct (downloadPage JSON_parse (position st) BASE_URL net) as [json|e] eqn:H.
  - rewrite (Loop.on_fetch_done_returned _ _ _ _ _ H). cbv zeta.
    match goal with
    | |- context [if _ then emit ?s _ else ?s] => set (st3 := s)
    end.
    match goal with
    | |- context [if ?c then emit st3 ?o else st3] =>
        set (st4 := if c then emit st3 o else st3)
    end.
    assert (H4 : teardowns st4 = [] /\ dataStream st4 = dataStream st
                 /\ logStream st4 = logStream st
                 /\ taskQueue st4 = (taskQueue st ++ [json])%list).
    { unfold st4, st3.
      match goal with |- context [if ?c then _ else _] => destruct c end;
        cbn [teardowns dataStream logStream taskQueue emit set_log set_task];
        rewrite Htd; auto. }
    clearbody st4. clear st3. destruct H4 as (Ht4 & Hd4 & Hl4 & Hq4).
    destruct (negb (truthy (next_token json))).
    + unfold call_teardown, teardown, task_idle.
      cbn [taskQueue emit]. rewrite Hq4.
      destruct (taskQueue st); cbn [app negb];
        unfold orderly;
        cbn [teardowns pc dataStream logStream set_loop set_teardowns emit];
        rewrite Ht4, Hd4, Hl4; cbn [app List.length]; auto.
    + unfold loop_top, orderly, looping.
      cbn [teardowns pc dataStream logStream set_loop emit].
      rewrite Ht4, Hd4, Hl4. auto.
  - assert (E : on_fetch_done JSON_parse BASE_URL st net
                = set_loop (emit (emit st (Console (backing_off (backoff st))))
                                 (Slept (backoff st)))
                           (position st) (backoff st) AwaitSleep).
    { unfold on_fetch_done. rewrite H. reflexivity. }
    rewrite E. unfold orderly, looping.
    cbn [teardowns pc dataStream logStream set_loop emit]. rewrite Htd. auto.
Qed.

Lemma step_orderly st ev st' :
  step JSON_parse BASE_URL st ev = Some st' ->
  ev <> Signal ->
  orderly st -> orderly st'.
Proof.
  intros Hstep Hev Hok.
  destruct ev; unfold step in Hstep;
    try (destruct (busy st); [discriminate|]).
  - destruct (pc st) eqn:Hpc; try discriminate.
    injection Hstep as <-. now apply orderly_fetch_done.
  - destruct (pc st) eqn:Hpc; try discriminate. injection Hstep as <-.
    unfold orderly in *. unfold on_sleep_done, loop_top, looping.
    cbn [teardowns pc dataStream logStream set_loop emit].
    destruct (teardowns st) as [|td [|td' tds]]; try contradiction.
    + destruct Hok as (_ & Hd & Hl). auto.
    + destruct Hok as [[H|H] _]; congruence.
  - now elim Hev.
  - (* TaskProcess *)
    destruct (taskWorker st) eqn:Hw; try discriminate.
    destruct (taskQueue st) as [|json queue] eqn:Hq; try discriminate.
    injection Hstep as <-. unfold orderly, looping, task_idle, log_idle in *.
    cbn [teardowns pc dataStream logStream taskQueue taskWorker logQueue logWorker
         set_task].
    rewrite Hq in Hok.
    destruct (teardowns st) as [|td [|td' tds]]; try contradiction; [exact Hok|].
    destruct Hok as [Hpc Hok]. split; [exact Hpc|].
    destruct td; try exact Hok; destruct Hok as [Hi _]; discriminate Hi.
  - (* TaskStep *)
    destruct (taskWorker st) as [|[|entry rest]|] eqn:Hw; try discriminate.
    + injection Hstep as <-. unfold orderly, looping, task_idle, log_idle in *.
      cbn [teardowns pc dataStream logStream taskQueue taskWorker logQueue logWorker
           set_task].
      rewrite Hw in Hok.
      destruct (teardowns st) as [|td [|td' tds]]; try contradiction; [exact Hok|].
      destruct Hok as [Hpc Hok]. split; [exact Hpc|].
      destruct td; try exact Hok; destruct Hok as [Hi _];
        destruct (taskQueue st); discriminate Hi.
    + assert (Hrun : forall s, teardowns s = teardowns st -> pc s = pc st ->
                               phase (dataStream s) = phase (dataStream st) ->
                               logStream s = logStream st ->
                               orderly s).
      { intros s Ht Hp Hd Hl. unfold orderly, looping, task_idle in *.
        rewrite Ht, Hp, Hd, Hl. rewrite Hw in Hok.
        destruct (teardowns st) as [|td [|td' tds]]; try contradiction; [exact Hok|].
        destruct Hok as [Hpc Hok]. split; [exact Hpc|].
        destruct td; try exact Hok; destruct Hok as [Hi _];
          destruct (taskQueue st); discriminate Hi. }
      destruct (entry_row entry) as [[row|]|].
      * destruct (stream_write _ _) as [ds|] eqn:Hwrite; [|discriminate].
        injection Hstep as <-. apply Hrun; try reflexivity.
        unfold stream_write in Hwrite.
        destruct (phase (dataStream st)) eqn:Hph; try discriminate.
        injection Hwrite as <-. cbn [dataStream set_task set_dataStream phase].
        reflexivity.
      * injection Hstep as <-. now apply Hrun.
      * injection Hstep as <-. now apply Hrun.
  - (* DataDrain *)
    destruct (taskWorker st) eqn:Hw; try discriminate.
    injection Hstep as <-. unfold orderly, looping, task_idle, log_idle in *.
    cbn [teardowns pc dataStream logStream taskQueue taskWorker logQueue logWorker
         set_task].
    rewrite Hw in Hok.
    destruct (teardowns st) as [|td [|td' tds]]; try contradiction; [exact Hok|].
    destruct Hok as [Hpc Hok]. split; [exact Hpc|].
    destruct td; try exact Hok; destruct Hok as [Hi _];
      destruct (taskQueue st); discriminate Hi.
  - (* LogProcess *)
    destruct (logWorker st) eqn:Hw; try discriminate.
    destruct (logQueue st) as [|message queue] eqn:Hq; try discriminate.
    destruct (stream_write _ _) as [ls|] eqn:Hwrite; [|discriminate].
    injection Hstep as <-.
    unfold stream_write in Hwrite.
    destruct (phase (logStream st)) eqn:Hph; try discriminate.
    injection Hwrite as <-.
    unfold orderly, looping, task_idle, log_idle in *.
    cbn [teardowns pc dataStream logStream taskQueue taskWorker logQueue logWorker
         set_log set_logStream phase].
    rewrite Hq in Hok.
    destruct (teardowns st) as [|td [|td' tds]]; try contradiction.
    + destruct Hok as (Hlp & Hd & _). auto.
    + destruct Hok as [Hpc Hok]. split; [exact Hpc|].
      destruct td.
      * destruct Hok as [Hd _]. auto.
      * destruct Hok as (Hi & Hd & _). auto.
      * destruct Hok as (_ & Hi & _). discriminate Hi.
      * destruct Hok as (_ & Hi). discriminate Hi.
      * destruct Hok as (_ & Hi). discriminate Hi.
  - (* LogDrain *)
    destruct (logWorker st) eqn:Hw; try discriminate.
    injection Hstep as <-.
    unfold orderly, looping, task_idle, log_idle in *.
    cbn [teardowns pc dataStream logStream taskQueue taskWorker logQueue logWorker
         set_log].
    rewrite Hw in Hok.
    destruct (teardowns st) as [|td [|td' tds]]; try contradiction; [exact Hok|].
    destruct Hok as [Hpc Hok]. split; [exact Hpc|].
    destruct td; try exact Hok.
    + destruct Hok as (_ & Hi & _). destruct (logQueue st); discriminate Hi.
    + destruct Hok as (_ & Hi). destruct (logQueue st); discriminate Hi.
    + destruct Hok as (_ & Hi). destruct (logQueue st); discriminate Hi.
  - (* TaskQueueDrained *)
    unfold orderly in Hok.
    destruct (teardowns st) as [|td [|td' tds]] eqn:Htd; try contradiction.
    { destruct i; discriminate. }
    destruct (nth_error [td] i) as [x|] eqn:Hn; [|discriminate].
    destruct (nth_single _ _ _ Hn) as [-> ->].
    destruct td; try discriminate.
    destruct (task_idle st) eqn:Hti; [|discriminate].
    injection Hstep as <-. destruct Hok as (Hpc & Hd & Hl).
    unfold resume_teardown, teardown_logs.
    destruct (log_idle st) eqn:Hli; cbn [negb].
    + unfold teardown_close, closed. cbn [dataStream logStream emit].
      rewrite Hd, Hl. cbn [andb]. unfold orderly, task_idle, log_idle, stream_end in *.
      cbn [teardowns pc dataStream logStream taskQueue taskWorker logQueue logWorker
           set_teardowns set_dataStream emit].
      rewrite Htd, Hd. cbn [replace]. auto.
    + unfold orderly. cbn [teardowns set_teardowns]. rewrite Htd. cbn [replace].
      cbn [pc dataStream logStream set_teardowns]. unfold task_idle in *.
      cbn [taskQueue taskWorker set_teardowns]. auto.
  - (* LogQueueDrained *)
    unfold orderly in Hok.
    destruct (teardowns st) as [|td [|td' tds]] eqn:Htd; try contradiction.
    { destruct i; discriminate. }
    destruct (nth_error [td] i) as [x|] eqn:Hn; [|discriminate].
    destruct (nth_single _ _ _ Hn) as [-> ->].
    destruct td; try discriminate.
    destruct (log_idle st) eqn:Hli; [|discriminate].
    injection Hstep as <-. destruct Hok as (Hpc & Hti & Hd & Hl).
    unfold resume_teardown, teardown_close, closed. cbn [dataStream logStream emit].
    rewrite Hd, Hl. cbn [andb]. unfold orderly, task_idle, log_idle, stream_end in *.
    cbn [teardowns pc dataStream logStream taskQueue taskWorker logQueue logWorker
         set_teardowns set_dataStream emit].
    rewrite Htd, Hd. cbn [replace]. auto.
  - (* DataEnded *)
    unfold orderly in Hok.
    destruct (teardowns st) as [|td [|td' tds]] eqn:Htd; try contradiction.
    { destruct i; discriminate. }
    destruct (nth_error [td] i) as [x|] eqn:Hn; [|discriminate].
    destruct (nth_single _ _ _ Hn) as [-> ->].
    destruct td; try discriminate.
    injection Hstep as <-. destruct Hok as (Hpc & Hti & Hli & Hl).
    unfold orderly, task_idle, log_idle in *.
    cbn [teardowns pc dataStream logStream taskQueue taskWorker logQueue logWorker
         set_teardowns set_dataStream set_logStream].
    rewrite Htd. cbn [replace]. auto.
  - (* LogEnded *)
    unfold orderly in Hok.
    destruct (teardowns st) as [|td [|td' tds]] eqn:Htd; try contradiction.
    { destruct i; discriminate. }
    destruct (nth_error [td] i) as [x|] eqn:Hn; [|discriminate].
    destruct (nth_single _ _ _ Hn) as [-> ->].
    destruct td; try discriminate.
    injection Hstep as <-. destruct Hok as (Hpc & Hti & Hli).
    unfold orderly, task_idle, log_idle in *.
    cbn [teardowns pc dataStream logStream taskQueue taskWorker logQueue logWorker
         set_teardowns set_logStream emit].
    rewrite Htd. cbn [replace]. auto.
  - (* TeardownDone *)
    destruct (pc st) eqn:Hpc; try discriminate.
    destruct (nth_error (teardowns st) i) as [[]|] eqn:Hn; try discriminate.
    injection Hstep as <-. unfold orderly in *.
    cbn [teardowns pc dataStream logStream set_loop emit].
    destruct (teardowns st) as [|td [|td' tds]]; try contradiction.
    + destruct i; discriminate.
    + destruct (nth_single _ _ _ Hn) as [-> <-]. destruct Hok as [_ Hok].
      unfold task_idle, log_idle in *.
      cbn [taskQueue taskWorker logQueue logWorker set_loop emit]. auto.
Qed.

Lemma start_orderly log : orderly (start BASE_URL log).
Proof.
  unfold start, loop_top, orderly, looping. cbv zeta.
  cbn [teardowns pc dataStream logStream set_loop emit].
  destruct (negb _); cbn [teardowns dataStream logStream emit phase]; auto.
Qed.

Lemma run_orderly log evs : forall st,
  Forall (fun ev => ev <> Signal) evs ->
  steps JSON_parse BASE_URL (start BASE_URL log) evs = Some st -> orderly st.
Proof.
  generalize (start BASE_URL log) (start_orderly log).
  induction evs as [|ev evs IH]; intros st0 Hst0 st Hevs Hsteps; cbn [steps] in Hsteps.
  - now injection Hsteps as <-.
  - destruct (step JSON_parse BASE_URL st0 ev) as [st1|] eqn:E; [|discriminate].
    inversion Hevs as [|? ? Hev Hevs']; subst.
    exact (IH _ (step_orderly _ _ _ E Hev Hst0) _ Hevs' Hsteps).
Qed.

End Cursor.

Lemma fold_skips_blank_lines lines : forall acc,
  fold_left read_line lines acc = fold_left read_line (filter nonempty lines) acc.
Proof.
  induction lines as [|l lines IH]; intros [r i]; [reflexivity|].
  cbn [fold_left filter]. unfold nonempty at 1. unfold read_line at 2.
  destruct (String.length l =? 0)%nat eqn:E; cbn [negb].
  - apply IH.
  - cbn [fold_left]. unfold read_line at 3. rewrite E. apply IH.
Qed.

End RunFacts.

(** ** download.ts: pages and log lines as the files hold them *)

Module PageFacts.

Import Download RunFacts.

(** *** The worker's rows are the rows read off the page *)

Lemma task_rows_reached (entries : list value) :
  task_rows entries = reached_rows entries.
Proof.
  unfold reached_rows, all_rows.
  induction entries as [|entry entries IH]; [reflexivity|].
  cbn [task_rows before_null]. unfold entry_row.
  destruct entry; cbn [get nullish]; try reflexivity;
    cbn [filter map]; unfold wanted, csv_row, field; cbn [get];
    match goal with
    | |- context [if ?c then Some _ else None] =>
        destruct c; cbn [filter map]; now rewrite IH
    end.
Qed.

Lemma rows_to_come_reached (w : TaskWorker) :
  rows_to_come w = reached_rows (entries_left w).
Proof.
  destruct w; cbn [rows_to_come entries_left]; auto using task_rows_reached.
Qed.

Lemma page_rows_of_page (json : value) : page_rows_of json = page_rows json.
Proof.
  unfold page_rows_of, page_rows, page_entries, task_start.
  destruct json as [| |b|n|s|elems|props|name]; try reflexivity.
  change (typeof (Obj props) =? "object")%string with true.
  cbn [negb]. destruct (get (Obj props) "entries") as [entries|]; [|reflexivity].
  destruct (truthy entries); cbn [negb rows_to_come];
    [apply task_rows_reached | reflexivity].
Qed.

Lemma flat_map_page_rows (pages : list value) :
  flat_map page_rows_of pages = flat_map page_rows pages.
Proof.
  induction pages as [|json pages IH]; [reflexivity|].
  cbn [flat_map]. now rewrite IH, page_rows_of_page.
Qed.

Lemma before_null_sound (entries : list value) :
  Forall (fun entry => nullish entry = false) entries ->
  before_null entries = entries.
Proof.
  induction 1 as [|entry entries He _ IH]; [reflexivity|].
  cbn [before_null]. now rewrite He, IH.
Qed.

Lemma page_rows_sound (pages : list value) :
  Forall sound_page pages ->
  flat_map page_rows pages = flat_map every_row pages.
Proof.
  induction 1 as [|json pages Hj _ IH]; [reflexivity|].
  cbn [flat_map]. rewrite IH. unfold page_rows, every_row, reached_rows.
  now rewrite (before_null_sound _ Hj).
Qed.

(** Without a signal a stream is ended only when nothing is left to be
    written to it. *)
Lemma orderly_streams (st : State) :
  orderly st ->
  (phase (dataStream st) = Open \/ task_idle st = true)
  /\ (phase (logStream st) = Open \/ log_idle st = true).
Proof.
  unfold orderly.
  destruct (teardowns st) as [|td [|td' tds]]; try contradiction.
  - intros (_ & H1 & H2). auto.
  - intros [_ H]. destruct td; intuition.
Qed.

(** *** The log line of a page in a list of lines *)

Lemma message_reads_back lines tok position :
  let p := getLastPosition (Some (lines ++ [logMessage tok position])%list) in
  page p = page (getLastPosition (Some lines)) + 1
  /\ (plain_token tok -> nextPageToken p = tok)
  /\ (tok = Null -> nextPageToken p = Null).
Proof.
  intros p. unfold p.
  rewrite getLastPosition_snoc by apply logMessage_nonempty.
  cbn [page nextPageToken]. split; [reflexivity|]. split.
  - intros (s & -> & Hne & Hsp & Hnull & _).
    rewrite logMessage_token by exact Hsp. cbn [to_string]. unfold decode.
    apply String.eqb_neq in Hnull. now rewrite Hnull.
  - intros ->. now rewrite logMessage_token.
Qed.

(** *** No message pushed while the loop goes round holds a line break *)

Section Legible.

Variable JSON_parse : string -> option value.
Variable BASE_URL : string.

Lemma step_legible log st ev st' :
  tidy_pages JSON_parse ->
  Forall unbroken (lines_of log) ->
  step JSON_parse BASE_URL st ev = Some st' ->
  legible log st -> legible log st'.
Proof.
  intros Htidy Hlog Hstep [Hc Hu].
  split; [exact (step_cursor_ok JSON_parse BASE_URL log st ev st' Htidy Hstep Hc)|].
  destruct ev;
    try (destruct (step_other _ _ _ _ _ Hstep) as (_ & Hl & Hm & _);
         [discriminate | discriminate |];
         rewrite Hl, Hm; exact Hu).
  - (* FetchDone *)
    unfold step in Hstep. destruct (busy st); [discriminate|].
    destruct (pc st) eqn:Hpc; try discriminate. injection Hstep as <-.
    assert (Hloop : looping st = true) by (unfold looping; now rewrite Hpc).
    specialize (Hc Hloop). specialize (Hu Hloop).
    destruct (on_fetch_done_cases JSON_parse BASE_URL st net)
      as [(e & _ & _ & _ & Hm & _)|(json & Hd & Hm & _ & _ & Hnext)].
    + intros _. rewrite Hm. exact Hu.
    + destruct Hnext as [(Ht & _ & _)|(_ & (i & Hpc') & _)].
      * intros _. rewrite Hm. apply Forall_app. split; [exact Hu|].
        constructor; [|constructor].
        destruct (downloadPage_parsed _ _ _ _ _ Hd) as [body Hbody].
        destruct (Htidy _ _ Hbody) as [Hf|(s & Hs & _ & _ & _ & Hunb)];
          [congruence|].
        apply TextFacts.unbroken_logMessage.
        -- rewrite Hs. exact Hunb.
        -- rewrite Hc.
           apply (TextFacts.getLastPosition_unbroken (Some (log_after log (out st)))).
           cbn [lines_of]. unfold log_after. apply Forall_app. auto.
      * unfold looping. rewrite Hpc'. discriminate.
  - (* SleepDone *)
    unfold step in Hstep. destruct (busy st); [discriminate|].
    destruct (pc st) eqn:Hpc; try discriminate. injection Hstep as <-.
    assert (Hloop : looping st = true) by (unfold looping; now rewrite Hpc).
    intros _. unfold on_sleep_done, loop_top. cbn [out set_loop emit].
    rewrite pushed_messages_snoc, app_nil_r. exact (Hu Hloop).
Qed.

Lemma start_legible log : legible log (start BASE_URL log).
Proof.
  split; [apply start_cursor_ok|].
  destruct (start_pushed BASE_URL log) as (-> & _). constructor.
Qed.

End Legible.

End PageFacts.

(** ** download.ts: properties of every run *)

Module RunTheorems.

Import Download RunFacts PageFacts.

(** X1.  Without a signal the log queue is first in, first out and loses
    nothing: in every run of download.ts that meets no signal, the lines
    written to the log stream, followed by the messages still queued, are
    the messages pushed, in the order of the pushes; and the log stream is
    open as long as a message is queued or being written, so that no line
    meets an ended stream. *)
Theorem log_lines_first_in_first_out :
  forall JSON_parse BASE_URL log evs st,
    Forall (fun ev => ev <> Signal) evs ->
    steps JSON_parse BASE_URL (start BASE_URL log) evs = Some st ->
    (chunks (logStream st) ++ map log_line (logQueue st))%list
    = map log_line (pushed_messages (out st))
    /\ (phase (logStream st) = Open \/ log_idle st = true).
Proof.
  intros JSON_parse BASE_URL log evs st Hevs H.
  split; [exact (proj1 (run_pipeline_ok JSON_parse BASE_URL log evs st H))|].
  exact (proj2 (orderly_streams st (run_orderly JSON_parse BASE_URL log evs st Hevs H))).
Qed.

Lemma log_lines_first_in_first_out_witness :
  exists st,
    steps (answers first_page) sample_base (start sample_base None)
      [FetchDone ok_response; FetchDone ok_response; LogProcess true] = Some st
    /\ ((chunks (logStream st) ++ map log_line (logQueue st))%list
        = map log_line (pushed_messages (out st))
        /\ (phase (logStream st) = Open \/ log_idle st = true))
    /\ chunks (logStream st) = [log_line "t <- Next page token | Got page 1 (null)"]
    /\ logQueue st = ["t <- Next page token | Got page 2 (t)"].
Proof.
  eexists. split; [vm_compute; reflexivity|].
  split; [|vm_compute; split; reflexivity].
  apply (log_lines_first_in_first_out (answers first_page) sample_base None
           [FetchDone ok_response; FetchDone ok_response; LogProcess true]).
  - repeat constructor; discriminate.
  - vm_compute. reflexivity.
Defined.

(** X2.  Without a signal the task queue writes the rows page by page, in
    the order of the pushes, without repetition: in every run of
    download.ts that meets no signal, the rows written to the data stream,
    followed by the rows of the entries the worker has still to look at and
    by the rows of the pages queued, are the rows of the pages pushed, and
    the data stream is open as long as a page is queued or with the worker.
    The rows of a page are those of its entries with a truthy id and a
    truthy value that come before its first [null] or [undefined] entry: at
    such an entry the worker throws, and the rows that follow it on the page
    are not written. *)
Theorem rows_in_page_order :
  forall JSON_parse BASE_URL log evs st,
    Forall (fun ev => ev <> Signal) evs ->
    steps JSON_parse BASE_URL (start BASE_URL log) evs = Some st ->
    (chunks (dataStream st) ++ reached_rows (entries_left (taskWorker st))
     ++ flat_map page_rows (taskQueue st))%list
    = flat_map page_rows (pushed_pages (out st))
    /\ (phase (dataStream st) = Open \/ task_idle st = true).
Proof.
  intros JSON_parse BASE_URL log evs st Hevs H.
  split.
  - rewrite <- rows_to_come_reached, <- !flat_map_page_rows.
    exact (proj2 (run_pipeline_ok JSON_parse BASE_URL log evs st H)).
  - exact (proj1 (orderly_streams st (run_orderly JSON_parse BASE_URL log evs st Hevs H))).
Qed.

Lemma rows_in_page_order_witness :
  exists st,
    steps (answers first_page) sample_base (start sample_base None)
      [FetchDone ok_response; FetchDone ok_response; TaskProcess; TaskStep false] = Some st
    /\ ((chunks (dataStream st) ++ reached_rows (entries_left (taskWorker st))
         ++ flat_map page_rows (taskQueue st))%list
        = flat_map page_rows (pushed_pages (out st))
        /\ (phase (dataStream st) = Open \/ task_idle st = true))
    /\ chunks (dataStream st) = ["1,10" ++ LF]
    /\ reached_rows (entries_left (taskWorker st)) = ["2,20" ++ LF]
    /\ flat_map page_rows (taskQueue st) = ["1,10" ++ LF; "2,20" ++ LF].
Proof.
  eexists. split; [vm_compute; reflexivity|].
  split; [|vm_compute; repeat split; reflexivity].
  apply (rows_in_page_order (answers first_page) sample_base None
           [FetchDone ok_response; FetchDone ok_response; TaskProcess; TaskStep false]).
  - repeat constructor; discriminate.
  - vm_compute. reflexivity.
Defined.

(** On a page whose second entry is [null] the worker writes the first row,
    throws at the second entry and leaves the third row unwritten. *)
Lemma rows_after_a_null_entry_are_lost :
  exists st,
    steps (answers holed_page) sample_base (start sample_base None)
      [FetchDone ok_response; TaskProcess; TaskStep true; TaskStep true] = Some st
    /\ taskWorker st = TaskIdle /\ taskQueue st = []
    /\ chunks (dataStream st) = ["1,10" ++ LF]
    /\ page_rows holed_page = ["1,10" ++ LF]
    /\ every_row holed_page = ["1,10" ++ LF; "2,20" ++ LF].
Proof.
  eexists. split; [vm_compute; reflexivity|]. vm_compute. repeat split.
Qed.

(** X3.  Resuming is sound.  Let log.txt be absent, empty or end with a
    line feed when [run] begins, and let every page either end the download
    or name the next page by a non-empty string, other than "null", without
    a space or a line break.  Then at any moment of a run in which the loop
    still goes round, [getLastPosition] on the text of log.txt as it stands
    once every message pushed so far is written (the old text, then each
    message with its line feed) gives the very position the loop holds. *)
Theorem resume_at_position :
  forall JSON_parse BASE_URL file evs st,
    tidy_pages JSON_parse ->
    terminated (file_text file) ->
    steps JSON_parse BASE_URL (start BASE_URL (file_lines file)) evs = Some st ->
    looping st = true ->
    getLastPosition (Some (readLines (log_text file (out st)))) = position st.
Proof.
  intros JSON_parse BASE_URL file evs st Htidy Hterm Hsteps Hloop.
  destruct (run_invariant JSON_parse BASE_URL (legible (file_lines file)) (file_lines file)
              (start_legible BASE_URL (file_lines file))
              (fun s ev s' =>
                 step_legible JSON_parse BASE_URL (file_lines file) s ev s' Htidy
                   (TextFacts.file_lines_unbroken file))
              evs st Hsteps) as [Hc Hu].
  rewrite TextFacts.readLines_log_text by auto.
  symmetry. exact (Hc Hloop).
Qed.

Lemma tidy_first_page : tidy_pages (answers first_page).
Proof.
  intros body json [= <-]. right. exists "t".
  repeat split; try discriminate; reflexivity.
Qed.

Lemma resume_at_position_witness :
  let file := Some ("t0 <- Next page token | Got page 1 (null)" ++ LF) in
  exists st,
    steps (answers first_page) sample_base (start sample_base (file_lines file))
      [FetchDone ok_response; FetchDone rate_limited; SleepDone; FetchDone ok_response]
    = Some st
    /\ getLastPosition (Some (readLines (log_text file (out st)))) = position st
    /\ position st = mkPosition (Str "t") 4
    /\ readLines (log_text file (out st))
       = ["t0 <- Next page token | Got page 1 (null)";
          "t <- Next page token | Got page 2 (t0)";
          "t <- Next page token | Got page 3 (t)"].
Proof.
  intros file.
  eexists. split; [vm_compute; reflexivity|].
  split; [|vm_compute; split; reflexivity].
  apply (resume_at_position (answers first_page) sample_base file
           [FetchDone ok_response; FetchDone rate_limited; SleepDone;
            FetchDone ok_response]).
  - exact tidy_first_page.
  - right. exists "t0 <- Next page token | Got page 1 (null)". reflexivity.
  - vm_compute. reflexivity.
  - vm_compute. reflexivity.
Defined.

(** X4.  The page of the position counts the pages pushed: in every run of
    download.ts it is the page [getLastPosition] gave at the start plus the
    number of pages pushed, the last page (the one that names no next page)
    not being counted. *)
Theorem page_counts_pushed_pages :
  forall JSON_parse BASE_URL log evs st,
    steps JSON_parse BASE_URL (start BASE_URL log) evs = Some st ->
    page (position st) + (if looping st then 0 else 1)
    = page (getLastPosition log) + Z.of_nat (pushes (out st)).
Proof.
  intros JSON_parse BASE_URL log evs st Hsteps.
  exact (run_invariant JSON_parse BASE_URL (page_ok log) log
           (start_page_ok BASE_URL log)
           (step_page_ok JSON_parse BASE_URL log) evs st Hsteps).
Qed.

Lemma page_counts_pushed_pages_witness :
  exists st,
    steps (answers mixed_page) sample_base
      (start sample_base (Some ["t1 <- Next page token | Got page 1 (null)"]))
      whole_run = Some st
    /\ page (position st) + (if looping st then 0 else 1)
       = page (getLastPosition (Some ["t1 <- Next page token | Got page 1 (null)"]))
         + Z.of_nat (pushes (out st))
    /\ page (position st) = 2 /\ pushes (out st) = 1%nat /\ pc st = RunDone.
Proof.
  eexists. split; [vm_compute; reflexivity|].
  split; [|vm_compute; repeat split; reflexivity].
  apply (page_counts_pushed_pages (answers mixed_page) sample_base
           (Some ["t1 <- Next page token | Got page 1 (null)"]) whole_run).
  vm_compute. reflexivity.
Defined.

(** X5.  Every page in the task queue is an object whose entries are
    truthy: the worker never takes one of its early returns on a page that
    [run] pushed, it always enters its [for] loop. *)
Theorem queued_pages_are_walkable :
  forall JSON_parse BASE_URL log evs st,
    steps JSON_parse BASE_URL (start BASE_URL log) evs = Some st ->
    Forall walkable (taskQueue st).
Proof.
  intros JSON_parse BASE_URL log evs st Hsteps.
  assert (H0 : Forall walkable (taskQueue (start BASE_URL log))).
  { destruct (start_pushed BASE_URL log) as (_ & _ & ->). constructor. }
  exact (run_invariant JSON_parse BASE_URL (fun s => Forall walkable (taskQueue s)) log
           H0 (step_walkable JSON_parse BASE_URL) evs st Hsteps).
Qed.

Lemma queued_pages_are_walkable_witness :
  exists st,
    steps (answers first_page) sample_base (start sample_base None)
      [FetchDone ok_response; FetchDone ok_response] = Some st
    /\ Forall walkable (taskQueue st)
    /\ taskQueue st = [first_page; first_page].
Proof.
  eexists. split; [vm_compute; reflexivity|].
  split; [|vm_compute; reflexivity].
  apply (queued_pages_are_walkable (answers first_page) sample_base None
           [FetchDone ok_response; FetchDone ok_response]).
  vm_compute. reflexivity.
Defined.

(** X6.  Without a signal the streams are ended only once both queues are
    empty and both workers idle: in every run of download.ts that meets no
    signal, as soon as [end()] was called on the data stream, every message
    pushed is a line of the log stream, and the data stream holds, page by
    page, the rows of the entries with a truthy id and a truthy value that
    come before the first [null] or [undefined] entry of their page (there
    the worker throws and the rest of the page is not written).  When no
    page pushed has such an entry the data stream holds every row of every
    page pushed. *)
Theorem streams_end_after_the_queues :
  forall JSON_parse BASE_URL log evs st,
    Forall (fun ev => ev <> Signal) evs ->
    steps JSON_parse BASE_URL (start BASE_URL log) evs = Some st ->
    phase (dataStream st) <> Open ->
    task_idle st = true /\ log_idle st = true
    /\ chunks (logStream st) = map log_line (pushed_messages (out st))
    /\ chunks (dataStream st) = flat_map page_rows (pushed_pages (out st))
    /\ (Forall sound_page (pushed_pages (out st)) ->
        chunks (dataStream st) = flat_map every_row (pushed_pages (out st))).
Proof.
  intros JSON_parse BASE_URL log evs st Hevs Hsteps Hphase.
  pose proof (run_orderly JSON_parse BASE_URL log evs st Hevs Hsteps) as Hord.
  destruct (run_pipeline_ok JSON_parse BASE_URL log evs st Hsteps) as [Hl Hd].
  assert (Hidle : task_idle st = true /\ log_idle st = true).
  { unfold orderly in Hord.
    destruct (teardowns st) as [|td [|td' tds]]; try contradiction.
    - destruct Hord as (_ & H & _). contradiction.
    - destruct Hord as [_ Hord]. destruct td.
      + destruct Hord as [H _]. contradiction.
      + destruct Hord as (_ & H & _). contradiction.
      + destruct Hord as (H1 & H2 & _). auto.
      + exact Hord.
      + exact Hord. }
  destruct Hidle as [Hti Hli]. split; [exact Hti|]. split; [exact Hli|].
  unfold task_idle in Hti. unfold log_idle in Hli.
  destruct (taskQueue st); [|discriminate].
  destruct (taskWorker st); try discriminate.
  destruct (logQueue st); [|discriminate].
  cbn [map flat_map rows_to_come app] in *. rewrite !app_nil_r in *.
  rewrite flat_map_page_rows in Hd.
  split; [exact Hl|]. split; [exact Hd|].
  intros Hsound. rewrite Hd. now apply page_rows_sound.
Qed.

Lemma streams_end_after_the_queues_witness :
  exists st,
    steps (answers mixed_page) sample_base (start sample_base None) whole_run = Some st
    /\ pc st = RunDone
    /\ phase (dataStream st) = Closed /\ phase (logStream st) = Closed
    /\ task_idle st = true /\ log_idle st = true
    /\ chunks (logStream st) = map log_line (pushed_messages (out st))
    /\ chunks (dataStream st) = flat_map page_rows (pushed_pages (out st))
    /\ (Forall sound_page (pushed_pages (out st)) ->
        chunks (dataStream st) = flat_map every_row (pushed_pages (out st))).
Proof.
  eexists. split; [vm_compute; reflexivity|].
  split; [vm_compute; reflexivity|].
  split; [vm_compute; reflexivity|].
  split; [vm_compute; reflexivity|].
  apply (streams_end_after_the_queues (answers mixed_page) sample_base None whole_run).
  - repeat constructor; discriminate.
  - vm_compute. reflexivity.
  - vm_compute. discriminate.
Defined.

(** X7.  A log line reads back.  To a log text that is empty or ends with
    a line feed, append the line pushed for a page, with its line feed,
    where neither the next token nor the token of the position holds a line
    break.  Then [getLastPosition] counts one page more; it gives back the
    next token when that token is a non-empty string, other than "null",
    without a space or a line break, and [null] when the token is
    [null]. *)
Theorem log_line_reads_back :
  forall text tok position,
    terminated text ->
    unbroken (to_string tok) ->
    unbroken (to_string (nextPageToken position)) ->
    let p := getLastPosition
               (Some (readLines (text ++ log_line (logMessage tok position)))) in
    page p = page (getLastPosition (Some (readLines text))) + 1
    /\ (plain_token tok -> nextPageToken p = tok)
    /\ (tok = Null -> nextPageToken p = Null).
Proof.
  intros text tok position Hterm Htok Hpos p. unfold p.
  rewrite TextFacts.readLines_message
    by (auto using TextFacts.unbroken_logMessage).
  apply message_reads_back.
Qed.

Lemma log_line_reads_back_witness :
  let text := "t1 <- Next page token | Got page 1 (null)" ++ LF in
  let p := getLastPosition
             (Some (readLines
                      (text ++ log_line (logMessage (Str "t2") (mkPosition (Str "t1") 2))))) in
  page p = page (getLastPosition (Some (readLines text))) + 1
  /\ (plain_token (Str "t2") -> nextPageToken p = Str "t2")
  /\ (Str "t2" = Null -> nextPageToken p = Null).
Proof.
  intros text.
  apply (log_line_reads_back text (Str "t2") (mkPosition (Str "t1") 2)).
  - right. exists "t1 <- Next page token | Got page 1 (null)". reflexivity.
  - split; reflexivity.
  - split; reflexivity.
Defined.

(** X8.  A finished download does not read back as finished.  When the last
    page has no [nextPageToken], the loop pushes a line that begins with
    "undefined" and leaves; on a log that ends with that line
    [getLastPosition] gives the string "undefined" as token, and the request
    built from it carries [page_token=undefined]. *)
Theorem finished_log_resumes_with_undefined :
  forall JSON_parse BASE_URL st net json lines,
    downloadPage JSON_parse (position st) BASE_URL net = Returned json ->
    next_token json = Undefined ->
    let st' := on_fetch_done JSON_parse BASE_URL st net in
    let message := logMessage Undefined (position st) in
    let p := getLastPosition (Some (lines ++ [message])%list) in
    pushed_messages (out st') = (pushed_messages (out st) ++ [message])%list
    /\ (exists i, pc st' = AwaitTeardown i)
    /\ nextPageToken p = Str "undefined"
    /\ searchParams (request_url p BASE_URL)
       = [max_page_size; order_by; ("page_token", "undefined")].
Proof.
  intros JSON_parse BASE_URL st net json lines Hd Hnext st' message p.
  destruct (on_fetch_done_cases JSON_parse BASE_URL st net)
    as [(e & He & _)|(json' & Hd' & Hm & _ & _ & Hcase)]; [congruence|].
  assert (json' = json) by congruence. subst json'.
  rewrite Hnext in *.
  destruct Hcase as [(Ht & _)|(_ & Hpc & _)]; [discriminate Ht|].
  assert (Htok : nextPageToken p = Str "undefined").
  { unfold p. rewrite getLastPosition_snoc by apply logMessage_nonempty.
    cbn [nextPageToken]. unfold message. now rewrite logMessage_token. }
  repeat split; auto.
  unfold request_url. now rewrite Htok.
Qed.

Lemma finished_log_resumes_with_undefined_witness :
  let p := getLastPosition
             (Some ([] ++ [logMessage Undefined (position (start sample_base None))])%list) in
  nextPageToken p = Str "undefined"
  /\ searchParams (request_url p sample_base)
     = [max_page_size; order_by; ("page_token", "undefined")].
Proof.
  exact (proj2 (proj2 (finished_log_resumes_with_undefined
                         (answers mixed_page) sample_base (start sample_base None)
                         ok_response mixed_page [] eq_refl eq_refl))).
Defined.

(** X9.  Empty lines do not count: [getLastPosition] gives the same position
    on a log and on that log without its empty lines. *)
Theorem blank_lines_do_not_count :
  forall lines,
    getLastPosition (Some lines) = getLastPosition (Some (filter nonempty lines)).
Proof.
  intros lines. unfold getLastPosition. now rewrite fold_skips_blank_lines.
Qed.

End RunTheorems.

(** ** The revision with [writeTaskQueue]: properties of every run *)

Module RevisionTheorems.

Import Download Revision RevisionFacts.

(** X10.  In every run of the revision each log line the worker has written
    comes right after the task it belongs to and the rows of all the entries
    of that task, and the two streams hold exactly what the worker wrote. *)
Theorem revision_log_line_after_rows :
  forall JSON_parse BASE_URL payload log evs st,
    Revision.steps JSON_parse BASE_URL payload
      (Revision.start BASE_URL payload log) evs = Some st ->
    log_after_rows (journal st)
    /\ chunks (Revision.dataStream st) = data_writes (journal st)
    /\ chunks (Revision.logStream st) = log_writes (journal st).
Proof.
  intros JSON_parse BASE_URL payload log evs st H.
  exact (log_line_after_rows JSON_parse BASE_URL payload log evs st H).
Qed.

Lemma revision_log_line_after_rows_witness :
  exists st,
    Revision.steps (answers first_page) sample_base one_task
      (Revision.start sample_base one_task None)
      [Revision.FetchDone ok_response; Process; Step false; Revision.DataDrain;
       Step true; Step true] = Some st
    /\ journal st
       = block (mkWriteTask first_page "t <- Next page token | Got page 1 (null)")
               ["1,10" ++ LF; "2,20" ++ LF]
    /\ log_after_rows (journal st).
Proof.
  eexists. split; [vm_compute; reflexivity|].
  split; [vm_compute; reflexivity|].
  apply (revision_log_line_after_rows (answers first_page) sample_base one_task None
           [Revision.FetchDone ok_response; Process; Step false; Revision.DataDrain;
            Step true; Step true]).
  vm_compute. reflexivity.
Defined.

(** X11.  After a signal the revision starts no request: whatever events
    follow, the number of requests started stays what it was when the signal
    came, and [running] stays false. *)
Theorem revision_stops_at_signal :
  forall JSON_parse BASE_URL payload st evs st',
    Revision.steps JSON_parse BASE_URL payload st (Revision.Signal :: evs) = Some st' ->
    running st' = false
    /\ fetch_count (Revision.out st') = fetch_count (Revision.out st).
Proof.
  intros JSON_parse BASE_URL payload st evs st' H.
  exact (no_fetch_after_signal JSON_parse BASE_URL payload st evs st' H).
Qed.

Lemma revision_stops_at_signal_witness :
  exists st',
    Revision.steps (answers first_page) sample_base one_task
      (Revision.start sample_base one_task None)
      [Revision.Signal; Revision.FetchDone ok_response; Process] = Some st'
    /\ running st' = false
    /\ fetch_count (Revision.out st')
       = fetch_count (Revision.out (Revision.start sample_base one_task None))
    /\ fetch_count (Revision.out st') = 1%nat.
Proof.
  eexists. split; [vm_compute; reflexivity|].
  split; [vm_compute; reflexivity|].
  split; [|vm_compute; reflexivity].
  apply (revision_stops_at_signal (answers first_page) sample_base one_task
           (Revision.start sample_base one_task None)
           [Revision.FetchDone ok_response; Process]).
  vm_compute. reflexivity.
Defined.

(** X12.  The worker of the revision carries a task through.  With both
    streams open, no entry [null] and no back-pressure, the worker that
    stands at the head of its [for] loop ends idle after one step per entry
    and one more; it has appended the rows of the entries whose id is truthy
    and whose value is a number, in order, to the data stream, and then the
    log line to the log stream. *)
Theorem worker_carries_task_through :
  forall JSON_parse BASE_URL payload entries st message,
    worker st = Running entries message ->
    Forall (fun e => e <> Null /\ e <> Undefined) entries ->
    phase (Revision.dataStream st) = Open ->
    phase (Revision.logStream st) = Open ->
    exists st',
      Revision.steps JSON_parse BASE_URL payload st
        (repeat (Step true) (S (List.length entries))) = Some st'
      /\ worker st' = Idle
      /\ chunks (Revision.dataStream st')
         = (chunks (Revision.dataStream st) ++ map row (filter numeric entries))%list
      /\ chunks (Revision.logStream st')
         = (chunks (Revision.logStream st) ++ [(message ++ LF)%string])%list.
Proof.
  intros JSON_parse BASE_URL payload entries.
  induction entries as [|entry entries IH]; intros st message Hw Hall Hd Hl.
  - cbn [repeat List.length Revision.steps]. unfold Revision.step. rewrite Hw.
    unfold stream_write. rewrite Hl. eexists. split; [reflexivity|].
    cbn [worker Revision.dataStream Revision.logStream set_queue note
         Revision.set_logStream chunks filter map].
    now rewrite app_nil_r.
  - inversion Hall as [|? ? [Hn Hu] Hall']; subst.
    change (repeat (Step true) (S (List.length (entry :: entries))))
      with (Step true :: repeat (Step true) (S (List.length entries))).
    cbn [Revision.steps]. unfold Revision.step at 1. rewrite Hw.
    assert (Hrow : Revision.entry_row entry
                   = Returned (if numeric entry then Some (row entry) else None)).
    { unfold Revision.entry_row, numeric, row.
      destruct entry; try contradiction; cbn [get];
        match goal with |- context [if ?c then _ else _] => destruct c end; reflexivity. }
    rewrite Hrow. cbn [filter]. destruct (numeric entry).
    + unfold stream_write. rewrite Hd.
      match goal with
      | |- context [Revision.steps _ _ _ ?s _] =>
          destruct (IH s message eq_refl Hall' eq_refl Hl) as (st' & Hs & Hi & Hdc & Hlc)
      end.
      exists st'. split; [exact Hs|]. split; [exact Hi|]. split; [|exact Hlc].
      rewrite Hdc.
      cbn [Revision.dataStream set_queue note Revision.set_dataStream chunks map].
      now rewrite <- app_assoc.
    + match goal with
      | |- context [Revision.steps _ _ _ ?s _] =>
          destruct (IH s message eq_refl Hall' Hd Hl) as (st' & Hs & Hi & Hdc & Hlc)
      end.
      exists st'. auto.
Qed.

Lemma worker_carries_task_through_witness :
  let st :=
    set_queue (Revision.start sample_base one_task None) []
              (Running [entry_a; entry_x] "line") in
  exists st',
    Revision.steps (answers mixed_page) sample_base one_task st
      (repeat (Step true) (S (List.length [entry_a; entry_x]))) = Some st'
    /\ worker st' = Idle
    /\ chunks (Revision.dataStream st')
       = (chunks (Revision.dataStream st) ++ map row (filter numeric [entry_a; entry_x]))%list
    /\ chunks (Revision.logStream st')
       = (chunks (Revision.logStream st) ++ [("line" ++ LF)%string])%list.
Proof.
  intros st.
  apply (worker_carries_task_through (answers mixed_page) sample_base one_task
           [entry_a; entry_x] st "line").
  - reflexivity.
  - repeat constructor; discriminate.
  - vm_compute. reflexivity.
  - vm_compute. reflexivity.
Defined.

Ltac bounded :=
  unfold backoff_bounded in *; state_simpl;
  repeat match goal with
         | H : _ /\ _ |- _ => destruct H
         end;
  split;
  [ unfold Revision.STARTING_BACKOFF, Revision.INCREMENT_BACKOFF,
      Revision.INCREMENT_RETURN_BACKOFF in *; lia
  | repeat (apply Forall_app; split); repeat constructor; auto;
    cbn [long_enough];
    unfold Revision.STARTING_BACKOFF, Revision.INCREMENT_BACKOFF,
      Revision.INCREMENT_RETURN_BACKOFF in *; lia ].

Lemma step_backoff_bounded JSON_parse BASE_URL payload st ev st' :
  Revision.step JSON_parse BASE_URL payload st ev = Some st' ->
  backoff_bounded st -> backoff_bounded st'.
Proof.
  intros Hstep Hok.
  destruct ev; unfold Revision.step in Hstep;
    try (destruct (Revision.busy st); [discriminate|]).
  - destruct (Revision.pc st); try discriminate. injection Hstep as <-.
    unfold Revision.on_fetch_done, Revision.loop_top, Revision.call_teardown,
      Revision.teardown, teardown_payload, Revision.teardown_close.
    cbv zeta.
    destruct (downloadPage _ _ _ _); split_ifs; bounded.
  - destruct (Revision.pc st); try discriminate. injection Hstep as <-.
    unfold Revision.on_sleep_done, Revision.loop_top, Revision.call_teardown,
      Revision.teardown, teardown_payload, Revision.teardown_close.
    cbv zeta. split_ifs; bounded.
  - injection Hstep as <-.
    unfold Revision.call_teardown, Revision.teardown, teardown_payload,
      Revision.teardown_close.
    cbv zeta. split_ifs; bounded.
  - destruct (worker st); try discriminate.
    destruct (queue st); try discriminate.
    injection Hstep as <-. bounded.
  - destruct (worker st) as [|[|entry rest] message| |]; try discriminate.
    + destruct (stream_write _ _); [|discriminate]. injection Hstep as <-. bounded.
    + destruct (Revision.entry_row entry) as [[r|]|];
        [destruct (stream_write _ _); [|discriminate]| |];
        injection Hstep as <-; bounded.
  - destruct (worker st); try discriminate. injection Hstep as <-. bounded.
  - destruct (worker st); try discriminate. injection Hstep as <-. bounded.
  - destruct (nth_error _ _) as [[]|]; try discriminate.
    destruct (idle st); [|discriminate]. injection Hstep as <-.
    unfold Revision.resume_teardown, teardown_payload, Revision.teardown_close.
    cbv zeta. split_ifs; bounded.
  - destruct (nth_error _ _) as [[]|]; try discriminate. injection Hstep as <-.
    unfold Revision.resume_teardown, teardown_payload, Revision.teardown_close.
    cbv zeta. split_ifs; bounded.
  - destruct (nth_error _ _) as [[]|]; try discriminate. injection Hstep as <-. bounded.
  - destruct (nth_error _ _) as [[]|]; try discriminate. injection Hstep as <-. bounded.
  - destruct (Revision.pc st); try discriminate.
    destruct (nth_error _ _) as [[]|]; try discriminate. injection Hstep as <-. bounded.
Qed.

Lemma start_backoff_bounded BASE_URL payload log :
  backoff_bounded (Revision.start BASE_URL payload log).
Proof.
  unfold Revision.start, Revision.loop_top. cbv zeta.
  destruct (negb _); unfold backoff_bounded; state_simpl;
    (split;
     [ unfold Revision.STARTING_BACKOFF; lia
     | repeat (apply Forall_app; split); repeat constructor ]).
Qed.

(** X13.  The backoff of the revision never falls below its start: in every
    run the variable [backoff] is at least [STARTING_BACKOFF], and so is
    every sleep. *)
Theorem revision_backoff_never_below_start :
  forall JSON_parse BASE_URL payload log evs st,
    Revision.steps JSON_parse BASE_URL payload
      (Revision.start BASE_URL payload log) evs = Some st ->
    Revision.STARTING_BACKOFF <= Revision.backoff st
    /\ Forall long_enough (Revision.out st).
Proof.
  intros JSON_parse BASE_URL payload log evs.
  generalize (Revision.start BASE_URL payload log) (start_backoff_bounded BASE_URL payload log).
  induction evs as [|ev evs IH]; intros st0 H0 st Hsteps; cbn [Revision.steps] in Hsteps.
  - now injection Hsteps as <-.
  - destruct (Revision.step JSON_parse BASE_URL payload st0 ev) as [st1|] eqn:E;
      [|discriminate].
    exact (IH _ (step_backoff_bounded _ _ _ _ _ _ E H0) _ Hsteps).
Qed.

Lemma revision_backoff_never_below_start_witness :
  exists st,
    Revision.steps (answers first_page) sample_base one_task
      (Revision.start sample_base one_task None)
      [Revision.FetchDone rate_limited; Revision.SleepDone;
       Revision.FetchDone ok_response; Revision.FetchDone rate_limited] = Some st
    /\ Revision.backoff st = 249
    /\ Revision.STARTING_BACKOFF <= Revision.backoff st
    /\ Forall long_enough (Revision.out st).
Proof.
  eexists. split; [vm_compute; reflexivity|].
  split; [vm_compute; reflexivity|].
  apply (revision_backoff_never_below_start (answers first_page) sample_base one_task None
           [Revision.FetchDone rate_limited; Revision.SleepDone;
            Revision.FetchDone ok_response; Revision.FetchDone rate_limited]).
  vm_compute. reflexivity.
Defined.

End RevisionTheorems.

(** ** config.ts: what [getConfig] reads, checks and writes *)

Module ConfigFacts.

Import Config.

Ltac open_getConfig H :=
  unfold getConfig, saveConfig, pathExists, parse, trimmed, console_log,
    read_file, make_dir, write_file, bind, ret, throw in H.

Ltac innermost x :=
  lazymatch x with
  | context [match _ with _ => _ end] => fail
  | context [if _ then _ else _] => fail
  | _ => idtac
  end.

Ltac split_run H :=
  cbv beta iota zeta in H;
  repeat (match type of H with
          | context [if ?c then _ else _] => innermost c; destruct c eqn:?
          | context [match ?x with _ => _ end] => innermost x; destruct x eqn:?
          end;
          cbv beta iota zeta in H;
          cbn [negb orb andb fst snd app savedOutputDir] in H;
          try discriminate H).

Lemma truthy_nonempty (s : string) : s <> "" -> truthy (Str s) = true.
Proof.
  intros H. cbn. destruct (String.eqb_spec s ""); [contradiction | reflexivity].
Qed.

Lemma truthy_empty (s : string) : truthy (Str s) = true -> s <> "".
Proof.
  cbn. destruct (String.eqb_spec s ""); [discriminate | auto].
Qed.

Section Returned.

Variable JSON_parse : string -> option value.
Variable JSON_stringify : value -> string.
Variable path_join : string -> string -> string.
Variable trim : string -> string.
Variable string_le_zero : string -> bool.

Local Abbreviation run :=
  (getConfig JSON_parse JSON_stringify path_join trim string_le_zero).

(** The shape of a run of [getConfig] that returns. *)
Lemma getConfig_returned env response effects config :
  run env response [] = (effects, Returned config) ->
  exists dir key existing name scope,
    reply response "OutputDir" = Str dir
    /\ truthy (Str dir) = true
    /\ truthy (Str key) = true
    /\ ((accessSync env (path_join dir KEY_STORE_PATH) = true
         /\ readFile env (path_join dir KEY_STORE_PATH) = Some key
         /\ effects
            = [Log ("Using key from " ++ path_join dir KEY_STORE_PATH);
               WriteFile (path_join (trim dir) CONFIG_STORE_PATH)
                         (Str (JSON_stringify (saved_object (saved_of config))))])
        \/ (accessSync env (path_join dir KEY_STORE_PATH) = false
            /\ reply response "Key" = Str key
            /\ effects
               = [Mkdir dir;
                  WriteFile (path_join dir KEY_STORE_PATH) (Str key);
                  WriteFile (path_join (trim dir) CONFIG_STORE_PATH)
                            (Str (JSON_stringify (saved_object (saved_of config))))]))
    /\ ((accessSync env (path_join dir CONFIG_STORE_PATH) = false
         /\ existing = Undefined)
        \/ (accessSync env (path_join dir CONFIG_STORE_PATH) = true
            /\ exists text,
                readFile env (path_join dir CONFIG_STORE_PATH) = Some text
                /\ JSON_parse text = Some existing))
    /\ or_else (reply response "Name") (optional existing "Name") = Str name
    /\ truthy (Str name) = true
    /\ or_else (reply response "Scope") (Str "global") = Str scope
    /\ Id config = or_else (reply response "Id") (optional existing "Id")
    /\ truthy (Id config) = true
    /\ le_zero string_le_zero (Id config) = false
    /\ config = mkConfig (trim dir) (trim key) (Id config) (trim name) (trim scope).
Proof.
  intros H. open_getConfig H.
  replace (or_else (Str "global")) with (fun _ : value => Str "global") in H
    by reflexivity.
  split_run H.
  all: injection H as <- <-.
  all: cbn [Id saved_of OutputDir Name Scope Key].
  all: repeat match goal with
              | Hb : negb _ = false |- _ => apply negb_false_iff in Hb
              | Hb : _ || _ = false |- _ => apply orb_false_iff in Hb; destruct Hb
              end.
  all: match goal with
       | Hn : or_else _ (optional ?existing "Name") = Str ?name,
         Hs : or_else _ (Str "global") = Str ?scope,
         Hd : reply _ "OutputDir" = Str ?d |- _ =>
           match goal with
           | Hk : readFile _ (path_join _ KEY_STORE_PATH) = Some ?key |- _ =>
               exists d, key, existing, name, scope
           | Hk : reply _ "Key" = Str ?key |- _ =>
               exists d, key, existing, name, scope
           end
       end.
  all: repeat (split; [solve [eauto 6] |]); try solve [eauto 6].
Qed.

End Returned.

Lemma or_else_truthy (a b : value) : truthy a = true -> or_else a b = a.
Proof.
  intros H. unfold or_else. now rewrite H.
Qed.

Lemma or_else_falsy (a b : value) : truthy a = false -> or_else a b = b.
Proof.
  intros H. unfold or_else. now rewrite H.
Qed.

Lemma optional_saved_Id (saved : SavedConfig) :
  optional (saved_object saved) "Id" = savedId saved.
Proof.
  reflexivity.
Qed.

Lemma optional_saved_Name (saved : SavedConfig) :
  optional (saved_object saved) "Name" = Str (savedName saved).
Proof.
  reflexivity.
Qed.

Lemma nonempty_length (s : string) :
  s <> "" -> (Z.of_nat (String.length s) =? 0) = false.
Proof.
  destruct s; [contradiction | intros _; reflexivity].
Qed.

End ConfigFacts.

Module ConfigTheorems.

Import Config ConfigFacts.

(** X14.  What [getConfig] returns is what it has just saved: whenever
    [getConfig] returns a configuration, its last effect is the write of
    [config.json] in the returned output directory, holding exactly the
    returned OutputDir, Id, Name and Scope (never the key); and the
    returned Id is truthy and not [<= 0]. *)
Theorem getConfig_saves_what_it_returns :
  forall JSON_parse JSON_stringify path_join trim string_le_zero env
         response effects config,
    getConfig JSON_parse JSON_stringify path_join trim string_le_zero env response []
    = (effects, Returned config) ->
    truthy (Id config) = true
    /\ le_zero string_le_zero (Id config) = false
    /\ exists earlier,
        effects
        = (earlier
           ++ [WriteFile (path_join (OutputDir config) CONFIG_STORE_PATH)
                         (Str (JSON_stringify (saved_object (saved_of config))))])%list.
Proof.
  intros JSON_parse JSON_stringify path_join trim string_le_zero env
         response effects config H.
  destruct (getConfig_returned _ _ _ _ _ _ _ _ _ H)
    as (dir & key & existing & name & scope & _ & _ & _ & Hkey & _ & _ & _ & _
        & _ & Hid & Hle & Hcfg).
  assert (Hdir : OutputDir config = trim dir) by (rewrite Hcfg; reflexivity).
  rewrite Hdir. split; [exact Hid | split; [exact Hle |]].
  destruct Hkey as [(_ & _ & ->) | (_ & _ & ->)].
  - now exists [Log ("Using key from " ++ path_join dir KEY_STORE_PATH)].
  - now exists [Mkdir dir; WriteFile (path_join dir KEY_STORE_PATH) (Str key)].
Qed.

Lemma getConfig_saves_what_it_returns_witness :
  let config := mkConfig "out" "secret" (Num 7) "wins" "season" in
  truthy (Id config) = true
  /\ le_zero (fun _ => false) (Id config) = false
  /\ exists earlier,
      [Mkdir "out"; WriteFile "out/key.txt" (Str "secret");
       WriteFile "out/config.json" (Str "saved")]
      = (earlier
         ++ [WriteFile (sample_join (OutputDir config) CONFIG_STORE_PATH)
                       (Str ((fun _ => "saved") (saved_object (saved_of config))))])%list.
Proof.
  intros config.
  apply (getConfig_saves_what_it_returns (fun _ => None) (fun _ => "saved")
           sample_join strip (fun _ => false) fresh first_answers).
  vm_compute. reflexivity.
Defined.

(** X15.  An existing [key.txt] takes precedence over the answered key and
    is never rewritten: when [key.txt] of the output directory exists and is
    read, [getConfig] makes no directory and writes nothing but
    [config.json]; an empty [key.txt] makes it throw "Must provide valid
    key!" whatever was answered; and a returned key is the trimmed file. *)
Theorem existing_key_file_wins :
  forall JSON_parse JSON_stringify path_join trim string_le_zero env
         response dir text effects res,
    reply response "OutputDir" = Str dir ->
    dir <> "" ->
    accessSync env (path_join dir KEY_STORE_PATH) = true ->
    readFile env (path_join dir KEY_STORE_PATH) = Some text ->
    getConfig JSON_parse JSON_stringify path_join trim string_le_zero env response []
    = (effects, res) ->
    Forall (leaves_key path_join trim dir) effects
    /\ (text = "" -> res = Thrown MustProvideKey)
    /\ (forall config, res = Returned config -> Key config = trim text).
Proof.
  intros JSON_parse JSON_stringify path_join trim string_le_zero env
         response dir text effects res Hdir Hne Hacc Hread H.
  apply truthy_nonempty in Hne.
  open_getConfig H. rewrite Hdir, Hne, Hacc, Hread in H.
  cbv beta iota zeta in H. cbn [negb app] in H.
  assert (Hkey : text = "" -> truthy (Str text) = false) by (now intros ->).
  destruct (truthy (Str text)) eqn:Htext; cbn [negb] in H.
  - split_run H; injection H as <- <-.
    all: split; [repeat constructor | split; [intros E; now apply Hkey in E |]].
    all: intros config E; try discriminate E.
    all: injection E as <-; reflexivity.
  - injection H as <- <-.
    split; [repeat constructor | split; [reflexivity | discriminate]].
Qed.

Lemma existing_key_file_wins_witness :
  let outcome :=
    getConfig (fun _ => Some sample_saved) (fun _ => "saved") sample_join strip
              (fun _ => false) revisited
              [("OutputDir", Str "out"); ("Key", Str "other")] [] in
  Forall (leaves_key sample_join strip "out") (fst outcome)
  /\ ("secret" = "" -> snd outcome = Thrown MustProvideKey)
  /\ (forall config, snd outcome = Returned config -> Key config = strip "secret").
Proof.
  intros outcome.
  apply (existing_key_file_wins (fun _ => Some sample_saved) (fun _ => "saved")
           sample_join strip (fun _ => false) revisited
           [("OutputDir", Str "out"); ("Key", Str "other")] "out" "secret").
  - reflexivity.
  - discriminate.
  - reflexivity.
  - reflexivity.
  - apply surjective_pairing.
Defined.

(** X16.  A new key is stored before the other answers are checked: in an
    output directory without [key.txt], once [mkdir] and the write succeed,
    the first effects of [getConfig] are the directory and [key.txt] with the
    answered key as typed, whatever happens next; with no id answered and no
    [config.json] it then throws "Must provide valid, positive experience
    id!" and the key stays written. *)
Theorem new_key_written_before_checks :
  forall JSON_parse JSON_stringify path_join trim string_le_zero env
         response dir effects res,
    reply response "OutputDir" = Str dir ->
    dir <> "" ->
    accessSync env (path_join dir KEY_STORE_PATH) = false ->
    mkdir env dir = true ->
    truthy (reply response "Key") = true ->
    writeFile env (path_join dir KEY_STORE_PATH) (reply response "Key") = true ->
    getConfig JSON_parse JSON_stringify path_join trim string_le_zero env response []
    = (effects, res) ->
    (exists rest,
        effects
        = Mkdir dir
          :: WriteFile (path_join dir KEY_STORE_PATH) (reply response "Key") :: rest)
    /\ (truthy (reply response "Id") = false ->
        accessSync env (path_join dir CONFIG_STORE_PATH) = false ->
        effects
        = [Mkdir dir; WriteFile (path_join dir KEY_STORE_PATH) (reply response "Key")]
        /\ res = Thrown MustProvideId).
Proof.
  intros JSON_parse JSON_stringify path_join trim string_le_zero env
         response dir effects res Hdir Hne Hacc Hmk Hkey Hwr H.
  apply truthy_nonempty in Hne.
  open_getConfig H. rewrite Hdir, Hne, Hacc, Hmk in H.
  cbv beta iota zeta in H. cbn [negb app] in H.
  rewrite Hkey, Hwr in H. cbv beta iota zeta in H. cbn [negb app] in H.
  destruct (accessSync env (path_join dir CONFIG_STORE_PATH)) eqn:Hcfg.
  - split; [| intros _ E; discriminate E].
    split_run H; injection H as <- <-; eexists; reflexivity.
  - cbv beta iota zeta in H. split.
    + split_run H; injection H as <- <-; eexists; reflexivity.
    + intros Hid _. rewrite (or_else_falsy _ _ Hid) in H.
      replace (optional Undefined "Id") with Undefined in H by reflexivity.
      cbn [truthy negb orb] in H. injection H as <- <-. split; reflexivity.
Qed.

Lemma new_key_written_before_checks_witness :
  let response := [("OutputDir", Str "out"); ("Key", Str " secret ")] in
  let outcome :=
    getConfig (fun _ => None) (fun _ => "saved") sample_join strip
              (fun _ => false) fresh response [] in
  (exists rest,
      fst outcome
      = Mkdir "out"
        :: WriteFile (sample_join "out" KEY_STORE_PATH) (reply response "Key") :: rest)
  /\ (truthy (reply response "Id") = false ->
      accessSync fresh (sample_join "out" CONFIG_STORE_PATH) = false ->
      fst outcome
      = [Mkdir "out"; WriteFile (sample_join "out" KEY_STORE_PATH) (reply response "Key")]
      /\ snd outcome = Thrown MustProvideId).
Proof.
  intros response outcome.
  apply (new_key_written_before_checks (fun _ => None) (fun _ => "saved")
           sample_join strip (fun _ => false) fresh response "out").
  - reflexivity.
  - discriminate.
  - reflexivity.
  - reflexivity.
  - reflexivity.
  - reflexivity.
  - apply surjective_pairing.
Defined.

(** X17.  A second run into the same output directory: after a run of
    [getConfig] that returned, with an output directory and a name that
    trimming leaves as they are, a [config.json] that parses back and the
    files still in place, [onSubmitHandler] stops the questions at the
    output directory, and [getConfig] with the other answers missing returns
    the first run's OutputDir, Key, Id and Name; the Scope is not restored
    from [config.json] but becomes the trimmed "global". *)
Theorem second_run_restores_config :
  forall JSON_parse JSON_stringify path_join trim string_le_zero env1 env2
         response1 response2 effects1 config1 dir,
    getConfig JSON_parse JSON_stringify path_join trim string_le_zero env1 response1 []
    = (effects1, Returned config1) ->
    reply response1 "OutputDir" = Str dir ->
    trim dir = dir ->
    trim (Name config1) = Name config1 ->
    Name config1 <> "" ->
    JSON_parse (JSON_stringify (saved_object (saved_of config1)))
    = Some (saved_object (saved_of config1)) ->
    accessSync env2 dir = true ->
    keeps env2 effects1 ->
    (accessSync env1 (path_join dir KEY_STORE_PATH) = true ->
     accessSync env2 (path_join dir KEY_STORE_PATH) = true
     /\ readFile env2 (path_join dir KEY_STORE_PATH)
        = readFile env1 (path_join dir KEY_STORE_PATH)) ->
    (forall path data, writeFile env2 path data = true) ->
    reply response2 "OutputDir" = Str dir ->
    truthy (reply response2 "Id") = false ->
    truthy (reply response2 "Name") = false ->
    truthy (reply response2 "Scope") = false ->
    onSubmitHandler path_join env2 "OutputDir" dir = true
    /\ exists effects2,
        getConfig JSON_parse JSON_stringify path_join trim string_le_zero env2
                  response2 []
        = (effects2,
           Returned (mkConfig (OutputDir config1) (Key config1) (Id config1)
                              (Name config1) (trim "global"))).
Proof.
  intros JSON_parse JSON_stringify path_join trim string_le_zero env1 env2
         response1 response2 effects1 config1 dir
         H Hdir Htrim Hname Hne Hjson Hthere Hkeeps Hold Hwrite Hdir2 Hid2 Hname2 Hscope2.
  destruct (getConfig_returned _ _ _ _ _ _ _ _ _ H)
    as (dir' & key & existing & name & scope & Hd & Htd & Htk & Hkey & _ & _ & _ & _
        & _ & Hid & Hle & Hcfg).
  rewrite Hdir in Hd. injection Hd as <-.
  assert (HO : OutputDir config1 = dir) by (rewrite Hcfg; cbn; exact Htrim).
  assert (HK : Key config1 = trim key) by (rewrite Hcfg; reflexivity).
  assert (Hkey2 : accessSync env2 (path_join dir KEY_STORE_PATH) = true
                  /\ readFile env2 (path_join dir KEY_STORE_PATH) = Some key
                  /\ accessSync env2 (path_join dir CONFIG_STORE_PATH) = true
                  /\ readFile env2 (path_join dir CONFIG_STORE_PATH)
                     = Some (JSON_stringify (saved_object (saved_of config1)))).
  { destruct Hkey as [(Ha & Hr & He) | (Ha & Hr & He)].
    - destruct (Hold Ha) as [Ha2 Hr2]. rewrite Hr in Hr2.
      destruct (Hkeeps (path_join dir CONFIG_STORE_PATH)
                       (JSON_stringify (saved_object (saved_of config1)))) as [Hc1 Hc2].
      { rewrite He, Htrim. right. left. reflexivity. }
      auto.
    - destruct (Hkeeps (path_join dir KEY_STORE_PATH) key) as [Hk1 Hk2].
      { rewrite He. right. left. reflexivity. }
      destruct (Hkeeps (path_join dir CONFIG_STORE_PATH)
                       (JSON_stringify (saved_object (saved_of config1)))) as [Hc1 Hc2].
      { rewrite He, Htrim. right. right. left. reflexivity. }
      auto. }
  destruct Hkey2 as (Hk1 & Hk2 & Hc1 & Hc2).
  split.
  - unfold onSubmitHandler, pathExists. cbn [String.eqb Ascii.eqb Bool.eqb].
    rewrite Htd, (nonempty_length dir (truthy_empty dir Htd)), Hthere, Hk1, Hc1.
    reflexivity.
  - unfold getConfig, saveConfig, pathExists, parse, trimmed, console_log,
      read_file, make_dir, write_file, bind, ret, throw.
    rewrite Hdir2, Htd, Hk1, Hk2, Hc1, Hc2, Hjson.
    cbv beta iota zeta. cbn [negb app].
    rewrite Htk. cbn [negb].
    rewrite (or_else_falsy _ _ Hid2), (or_else_falsy _ _ Hname2),
      (or_else_falsy _ _ Hscope2).
    rewrite optional_saved_Id, optional_saved_Name.
    cbn [saved_of savedId savedName].
    rewrite Hid, Hle, (truthy_nonempty _ Hne).
    replace (or_else (Str "global")
                     (optional (saved_object (saved_of config1)) "Scope"))
      with (Str "global") by reflexivity.
    cbv beta iota zeta. cbn [negb orb app].
    rewrite Hwrite, Hname, Htrim, HO, HK.
    eexists. reflexivity.
Qed.

Lemma second_run_restores_config_witness :
  onSubmitHandler sample_join revisited "OutputDir" "out" = true
  /\ exists effects2,
      getConfig (fun _ => Some sample_saved) (fun _ => "saved") sample_join strip
                (fun _ => false) revisited [("OutputDir", Str "out")] []
      = (effects2, Returned (mkConfig "out" "secret" (Num 7) "wins" (strip "global"))).
Proof.
  apply (second_run_restores_config (fun _ => Some sample_saved) (fun _ => "saved")
           sample_join strip (fun _ => false) fresh revisited first_answers
           [("OutputDir", Str "out")]
           [Mkdir "out"; WriteFile "out/key.txt" (Str "secret");
            WriteFile "out/config.json" (Str "saved")]
           (mkConfig "out" "secret" (Num 7) "wins" "season") "out").
  - vm_compute. reflexivity.
  - reflexivity.
  - reflexivity.
  - reflexivity.
  - discriminate.
  - reflexivity.
  - reflexivity.
  - intros path text Hin.
    destruct Hin as [E | [E | [E | []]]]; try discriminate E;
      injection E as <- <-; split; reflexivity.
  - discriminate.
  - reflexivity.
  - reflexivity.
  - reflexivity.
  - reflexivity.
  - reflexivity.
Defined.

(** X18.  A negative answered id is refused even when [config.json] holds a
    good one: [getConfig] then never returns, and the only thing it can have
    written is the answered key. *)
Theorem negative_id_is_refused :
  forall JSON_parse JSON_stringify path_join trim string_le_zero env
         response n effects res,
    reply response "Id" = Num n ->
    n < 0 ->
    getConfig JSON_parse JSON_stringify path_join trim string_le_zero env response []
    = (effects, res) ->
    (exists e, res = Thrown e)
    /\ (forall path data,
          In (WriteFile path data) effects -> data = reply response "Key").
Proof.
  intros JSON_parse JSON_stringify path_join trim string_le_zero env
         response n effects res Hid Hn H.
  open_getConfig H. rewrite Hid in H.
  assert (Ht : truthy (Num n) = true).
  { cbn. destruct (Z.eqb_spec n 0); [lia | reflexivity]. }
  assert (Hor : forall b, or_else (Num n) b = Num n)
    by (intros b; now apply or_else_truthy).
  assert (Hle : negb (truthy (Num n)) || le_zero string_le_zero (Num n) = true).
  { rewrite Ht. cbn. now apply Z.leb_le, Z.lt_le_incl. }
  split_run H; injection H as <- <-.
  all: try match goal with
           | Hb : negb (truthy (or_else (Num _) ?x)) || _ = false |- _ =>
               rewrite (Hor x), Hle in Hb; discriminate Hb
           end.
  all: split; [eexists; reflexivity |].
  all: intros path data Hin; cbn in Hin.
  all: repeat match goal with
              | Hin : _ \/ _ |- _ => destruct Hin as [Hin | Hin]
              | Hin : False |- _ => destruct Hin
              end; try discriminate Hin.
  all: injection Hin as <- <-; reflexivity.
Qed.

Lemma negative_id_is_refused_witness :
  let response := [("OutputDir", Str "out"); ("Id", Num (-7))] in
  let outcome :=
    getConfig (fun _ => Some sample_saved) (fun _ => "saved") sample_join strip
              (fun _ => false) revisited response [] in
  (exists e, snd outcome = Thrown e)
  /\ (forall path data,
        In (WriteFile path data) (fst outcome) -> data = reply response "Key").
Proof.
  intros response outcome.
  apply (negative_id_is_refused (fun _ => Some sample_saved) (fun _ => "saved")
           sample_join strip (fun _ => false) revisited response (-7)).
  - reflexivity.
  - lia.
  - apply surjective_pairing.
Defined.

End ConfigTheorems.
